(** * DomainJaasoos: the probing pipeline of [main.go]

    A shallow embedding of [main.go]: the prober [getStatusAndRedirect],
    the expansion of one input line into queue sends, the two worker
    pools with their channels and wait groups as a labelled transition
    system, the aggregation into a map keyed by status code and the
    grouping done by [writeJSONFile]. *)

From Stdlib Require Import Ascii String DecimalString DecimalPos DecimalZ.
From stdpp Require Import base numbers list strings gmap fin_maps gmultiset.

Local Open Scope string_scope.
Local Open Scope list_scope.
Local Open Scope Z_scope.

(** ** Strings: the pieces of [strings] and [fmt] that [main.go] calls *)

Module GoStrings.

(** [strings.ToLower].  Go first scans the bytes of [s]: when all are
    below [utf8.RuneSelf] (0x80) it lowers the bytes [A]..[Z] and
    leaves the others; otherwise it returns
    [strings.Map(unicode.ToLower, s)], which decodes UTF-8 and looks
    every rune up in the Unicode case tables. *)
Definition lower_ascii (c : ascii) : ascii :=
  let n := nat_of_ascii c in
  if ((65 <=? n) && (n <=? 90))%nat then ascii_of_nat (n + 32) else c.

Fixpoint lower_bytes (s : string) : string :=
  match s with
  | EmptyString => EmptyString
  | String c rest => String (lower_ascii c) (lower_bytes rest)
  end.

Fixpoint isASCII (s : string) : bool :=
  match s with
  | EmptyString => true
  | String c rest => (nat_of_ascii c <? 128)%nat && isASCII rest
  end.

(** The Unicode case tables are not part of [main.go]:
    [Map_unicode_ToLower s] stands for [strings.Map(unicode.ToLower, s)]
    on a string with a byte from 0x80 on.  One fact about the tables is
    kept: the runes outside ASCII that lower to an ASCII letter are
    U+0130 (to [i]) and U+212A (to [k]), and a byte that is no UTF-8
    becomes U+FFFD, so such a string never lowers to ["https"]. *)
Class UnicodeTables := {
  Map_unicode_ToLower : string -> string;
  Map_unicode_ToLower_https :
    forall s, isASCII s = false -> Map_unicode_ToLower s <> "https"
}.

Definition ToLower {tables : UnicodeTables} (s : string) : string :=
  if isASCII s then lower_bytes s else Map_unicode_ToLower s.

(** [cut sep s]: the text before and after the first [sep] in [s]. *)
Fixpoint cut (sep : ascii) (s : string) : option (string * string) :=
  match s with
  | EmptyString => None
  | String c rest =>
      if Ascii.eqb c sep then Some (EmptyString, rest)
      else match cut sep rest with
           | Some (before, after) => Some (String c before, after)
           | None => None
           end
  end.

(** [strings.SplitN(s, sep, 2)] for a one-character separator: two
    pieces around the first separator, or [s] alone without one. *)
Definition SplitN2 (s : string) (sep : ascii) : list string :=
  match cut sep s with
  | Some (before, after) => [before; after]
  | None => [s]
  end.

(** [fmt.Sprintf("%s:%s", a, b)]. *)
Definition Sprintf_s_colon_s (a b : string) : string := a +:+ ":" +:+ b.

(** [fmt.Sprintf("%d", n)]: decimal digits, a [-] in front of a
    negative number. *)
Definition Sprintf_d (n : Z) : string := NilZero.string_of_int (Z.to_int n).

Fixpoint contains (c : ascii) (s : string) : bool :=
  match s with
  | EmptyString => false
  | String d rest => Ascii.eqb d c || contains c rest
  end.

End GoStrings.
Import GoStrings.

(** The examples are over ASCII strings, which [ToLower] lowers
    without the tables; they are run with these, which hand a string
    back as it is. *)
Definition tables_unused : UnicodeTables.
Proof.
  refine {| Map_unicode_ToLower := fun s => s |}.
  intros s Hascii ->. discriminate Hascii.
Defined.

(** The program is read for any Unicode case tables. *)
Section Program.

Context {tables : UnicodeTables}.

(** ** The prober *)

(** [net/http] as the prober sees it. *)
Record Request := mkRequest {
  req_Method : string;
  req_URL : string;
  req_Header : list (string * string);
  req_Close : bool
}.

Record Response := mkResponse {
  resp_StatusCode : Z;
  resp_Header : gmap string (list string)
}.

(** [Header.Get]: the first value stored under the key, or the empty
    string. *)
Definition Header_Get (h : gmap string (list string)) (key : string) : string :=
  match h !! key with
  | Some (v :: _) => v
  | _ => ""
  end.

(** What [client.Do] returns: a response and no error, or an error
    (with which a response may still come, when [CheckRedirect]
    fails). *)
Inductive DoResult :=
| DoResponse (resp : Response)
| DoError (resp : option Response).

(** The client and the network behind it: [http.NewRequest] fails on a
    method or URL it cannot parse; [Do] sends the request. *)
Record Client := mkClient {
  NewRequest : string -> string -> option Request;
  Do : Request -> DoResult
}.

(** [req.Header.Add("Connection", "close")] and [req.Close = true]. *)
Definition connection_close (req : Request) : Request :=
  {| req_Method := req_Method req;
     req_URL := req_URL req;
     req_Header := req_Header req ++ [("Connection", "close")];
     req_Close := true |}.

Definition getStatusAndRedirect (client : Client) (url method : string) : Z * string :=
  match NewRequest client method url with
  | None => (0, "")
  | Some req =>
      match Do client (connection_close req) with
      | DoError _ => (0, "")
      | DoResponse resp =>
          let redirectedURL :=
            if (300 <=? resp_StatusCode resp) && (resp_StatusCode resp <? 400)
            then Header_Get (resp_Header resp) "Location"
            else "" in
          (resp_StatusCode resp, redirectedURL)
      end
  end.

(** ** The expander: one input line to queue sends *)

Inductive Queue := httpsURLs | httpURLs.

#[global] Instance Queue_eq_dec : EqDecision Queue.
Proof. solve_decision. Defined.

Definition xlarge : list string :=
  ["81"; "300"; "591"; "593"; "832"; "981"; "1010"; "1311"; "2082"; "2087";
   "2095"; "2096"; "2480"; "3000"; "3128"; "3333"; "4243"; "4567"; "4711";
   "4712"; "4993"; "5000"; "5104"; "5108"; "5800"; "6543"; "7000"; "7396";
   "7474"; "8000"; "8001"; "8008"; "8014"; "8042"; "8069"; "8080"; "8081";
   "8088"; "8090"; "8091"; "8118"; "8123"; "8172"; "8222"; "8243"; "8280";
   "8281"; "8333"; "8443"; "8500"; "8834"; "8880"; "8888"; "8983"; "9000";
   "9043"; "9060"; "9080"; "9090"; "9091"; "9200"; "9443"; "9800"; "9981";
   "12443"; "16080"; "18091"; "18092"; "20720"; "28017"].

Definition large : list string :=
  ["81"; "591"; "2082"; "2087"; "2095"; "2096"; "3000"; "8000"; "8001";
   "8008"; "8080"; "8083"; "8443"; "8834"; "8888"].

(** The sends of a port template: each port on both queues, HTTPS
    first. *)
Definition expand_ports (domain : string) (ports : list string) : list (Queue * string) :=
  flat_map (fun port => [(httpsURLs, Sprintf_s_colon_s domain port);
                         (httpURLs, Sprintf_s_colon_s domain port)]) ports.

(** One turn of [for _, p := range probes]. *)
Definition expand_probe (domain p : string) : list (Queue * string) :=
  if String.eqb p "xlarge" then expand_ports domain xlarge
  else if String.eqb p "large" then expand_ports domain large
  else match SplitN2 p ":" with
       | [proto; port] =>
           if String.eqb (ToLower proto) "https"
           then [(httpsURLs, Sprintf_s_colon_s domain port)]
           else [(httpURLs, Sprintf_s_colon_s domain port)]
       | _ => []
       end.

(** The body of the input loop for one lowered line. *)
Definition expand (skipDefault : bool) (probes : list string) (domain : string)
  : list (Queue * string) :=
  if negb skipDefault && (length probes =? 0)%nat
  then [(httpsURLs, domain); (httpURLs, domain)]
  else flat_map (expand_probe domain) probes.

(** All sends of the input loop, in program order. *)
Definition expand_input (skipDefault : bool) (probes : list string) (lines : list string)
  : list (Queue * string) :=
  flat_map (fun line => expand skipDefault probes (ToLower line)) lines.

(** ** Results, their aggregation and the report *)

Record Result := mkResult {
  URL : string;
  StatusCode : Z;
  RedirectedURL : string
}.

(** One turn of the output worker:
    [results[res.StatusCode] = append(results[res.StatusCode], res)]. *)
Definition collect (results : gmap Z (list Result)) (res : Result)
  : gmap Z (list Result) :=
  <[StatusCode res := default [] (results !! StatusCode res) ++ [res]]> results.

(** The map the output worker has built once it has received [arrived],
    in this order. *)
Definition aggregate (arrived : list Result) : gmap Z (list Result) :=
  foldl collect ∅ arrived.

#[local] Unset Elimination Schemes.
Inductive JSON :=
| JNull
| JString (s : string)
| JArray (items : list JSON)
| JObject (fields : list (string * JSON)).
#[local] Set Elimination Schemes.

(** The element appended to [entries] for one result. *)
Definition entry (statusCode : Z) (res : Result) : JSON :=
  if (300 <=? statusCode) && (statusCode <? 400)
  then JObject [("url", JString (URL res));
                ("redirected_url", JString (RedirectedURL res))]
  else JString (URL res).

(** The inner loop: [entries] starts as a nil slice and grows by one
    element per result. *)
Definition entries (statusCode : Z) (resList : list Result) : list JSON :=
  foldl (fun entries res => entries ++ [entry statusCode res]) [] resList.

(** The outer loop over the map. *)
Definition jsonData (results : gmap Z (list Result)) : gmap string (list JSON) :=
  map_fold (fun statusCode resList jsonData =>
              <[Sprintf_d statusCode := entries statusCode resList]> jsonData)
           ∅ results.

(** How [encoding/json] renders a slice held in an interface: a slice
    that is still nil becomes [null], any other an array. *)
Definition encode_slice (entries : list JSON) : JSON :=
  match entries with
  | [] => JNull
  | _ => JArray entries
  end.

(** What the file system lets [writeJSONFile] do. *)
Inductive FileIO := CreateFails | WriteFails | FileWritten.

(** The document that ends up in the file: its top-level object as a map
    from key to value; [None] when the file could not be created or
    written. *)
Definition writeJSONFile (io : FileIO) (results : gmap Z (list Result))
  : option (gmap string JSON) :=
  let jsonData := jsonData results in
  match io with
  | CreateFails => None
  | WriteFails => None
  | FileWritten => Some (encode_slice <$> jsonData)
  end.

(** ** The pipeline: goroutines, channels and wait groups *)

Record Config := mkConfig {
  concurrency : Z;
  probes : list string;
  skipDefault : bool;
  preferHTTPS : bool;
  method : string
}.

(** The number of goroutines started by [for i := 0; i < concurrency/2; i++]
    (Go's division truncates toward zero). *)
Definition pool_size (cfg : Config) : nat := Z.to_nat (concurrency cfg ÷ 2).

(** Where a worker goroutine stands in its loop.  HTTPS workers pass
    through all five places; HTTP workers never forward. *)
Inductive Worker :=
| Receiving                               (* at [for url := range queue] *)
| Probing (url : string)                  (* about to call the prober *)
| Emitting (url : string) (res : Result)  (* at [output <- Result{...}] *)
| Forwarding (url : string)               (* at [httpURLs <- url] *)
| Finished.                               (* past [wg.Done()] *)

(** Where [main] stands once the goroutines are started: in the input
    loop with its remaining sends, at [outputWG.Wait()] after
    [close(httpsURLs)], or past [writeJSONFile]. *)
Inductive Main :=
| Expanding (pending : list (Queue * string))
| Waiting
| Exited (file : option (gmap string JSON)).

(** One call of the prober, as logged: the queue the target came from,
    the target, the status code returned, and the result built from it,
    if one was. *)
Record Attempt := mkAttempt {
  att_stage : Queue;
  att_target : string;
  att_status : Z;
  att_found : option Result
}.

Record State := mkState {
  main : Main;
  httpsURLs_closed : bool;
  httpURLs_closed : bool;
  output_closed : bool;
  httpsWorkers : list Worker;
  httpWorkers : list Worker;
  httpsWG : Z;
  httpWG : Z;
  outputWG : Z;
  results : gmap Z (list Result);
  attempts : list Attempt;
  panicked : bool
}.

Definition set_main (m : Main) (s : State) : State :=
  mkState m (httpsURLs_closed s) (httpURLs_closed s) (output_closed s)
    (httpsWorkers s) (httpWorkers s) (httpsWG s) (httpWG s) (outputWG s)
    (results s) (attempts s) (panicked s).

Definition close_httpsURLs (s : State) : State :=
  mkState (main s) true (httpURLs_closed s) (output_closed s)
    (httpsWorkers s) (httpWorkers s) (httpsWG s) (httpWG s) (outputWG s)
    (results s) (attempts s) (panicked s).

Definition close_httpURLs (s : State) : State :=
  mkState (main s) (httpsURLs_closed s) true (output_closed s)
    (httpsWorkers s) (httpWorkers s) (httpsWG s) (httpWG s) (outputWG s)
    (results s) (attempts s) (panicked s).

Definition close_output (s : State) : State :=
  mkState (main s) (httpsURLs_closed s) (httpURLs_closed s) true
    (httpsWorkers s) (httpWorkers s) (httpsWG s) (httpWG s) (outputWG s)
    (results s) (attempts s) (panicked s).

Definition set_httpsWorker (i : nat) (w : Worker) (s : State) : State :=
  mkState (main s) (httpsURLs_closed s) (httpURLs_closed s) (output_closed s)
    (<[i := w]> (httpsWorkers s)) (httpWorkers s) (httpsWG s) (httpWG s)
    (outputWG s) (results s) (attempts s) (panicked s).

Definition set_httpWorker (j : nat) (w : Worker) (s : State) : State :=
  mkState (main s) (httpsURLs_closed s) (httpURLs_closed s) (output_closed s)
    (httpsWorkers s) (<[j := w]> (httpWorkers s)) (httpsWG s) (httpWG s)
    (outputWG s) (results s) (attempts s) (panicked s).

Definition httpsWG_Done (s : State) : State :=
  mkState (main s) (httpsURLs_closed s) (httpURLs_closed s) (output_closed s)
    (httpsWorkers s) (httpWorkers s) (httpsWG s - 1) (httpWG s) (outputWG s)
    (results s) (attempts s) (panicked s).

Definition httpWG_Done (s : State) : State :=
  mkState (main s) (httpsURLs_closed s) (httpURLs_closed s) (output_closed s)
    (httpsWorkers s) (httpWorkers s) (httpsWG s) (httpWG s - 1) (outputWG s)
    (results s) (attempts s) (panicked s).

Definition outputWG_Done (s : State) : State :=
  mkState (main s) (httpsURLs_closed s) (httpURLs_closed s) (output_closed s)
    (httpsWorkers s) (httpWorkers s) (httpsWG s) (httpWG s) (outputWG s - 1)
    (results s) (attempts s) (panicked s).

Definition receive_result (res : Result) (s : State) : State :=
  mkState (main s) (httpsURLs_closed s) (httpURLs_closed s) (output_closed s)
    (httpsWorkers s) (httpWorkers s) (httpsWG s) (httpWG s) (outputWG s)
    (collect (results s) res) (attempts s) (panicked s).

Definition log_attempt (a : Attempt) (s : State) : State :=
  mkState (main s) (httpsURLs_closed s) (httpURLs_closed s) (output_closed s)
    (httpsWorkers s) (httpWorkers s) (httpsWG s) (httpWG s) (outputWG s)
    (results s) (attempts s ++ [a]) (panicked s).

(** A send on a closed channel: the runtime panics and the process
    dies. *)
Definition panic (s : State) : State :=
  mkState (main s) (httpsURLs_closed s) (httpURLs_closed s) (output_closed s)
    (httpsWorkers s) (httpWorkers s) (httpsWG s) (httpWG s) (outputWG s)
    (results s) (attempts s) true.

(** The state when [main] enters the input loop: every goroutine is
    started, every worker waits on its queue, each wait group counts its
    goroutines, and the sends of the whole input lie ahead. *)
Definition init (cfg : Config) (lines : list string) : State :=
  {| main := Expanding (expand_input (skipDefault cfg) (probes cfg) lines);
     httpsURLs_closed := false;
     httpURLs_closed := false;
     output_closed := false;
     httpsWorkers := replicate (pool_size cfg) Receiving;
     httpWorkers := replicate (pool_size cfg) Receiving;
     httpsWG := Z.of_nat (pool_size cfg);
     httpWG := Z.of_nat (pool_size cfg);
     outputWG := 1;
     results := ∅;
     attempts := [];
     panicked := false |}.

(** The atomic steps.  A send and its receive meet in one step, as the
    channels are unbuffered; a step of a prober call carries the client
    and network as they answer at that moment. *)
Inductive Event :=
| MainSend (w : nat)            (* worker [w] takes the next send of the input loop *)
| MainSendClosed                (* the next send of the input loop finds its queue closed *)
| MainClose                     (* [close(httpsURLs)] *)
| MainWrite (io : FileIO)       (* [outputWG.Wait()] returns, then [writeJSONFile] *)
| HttpsProbe (i : nat) (net : Client)
| HttpsEmit (i : nat)           (* the output worker takes the result of HTTPS worker [i] *)
| HttpsEmitClosed (i : nat)
| HttpsForward (i j : nat)      (* HTTP worker [j] takes the target HTTPS worker [i] forwards *)
| HttpsForwardClosed (i : nat)
| HttpsDone (i : nat)           (* the range loop ends, [httpsWG.Done()] *)
| HttpProbe (j : nat) (net : Client)
| HttpEmit (j : nat)
| HttpEmitClosed (j : nat)
| HttpDone (j : nat)
| CloseHTTP                     (* [httpsWG.Wait()] returns, [close(httpURLs)] *)
| CloseOutput                   (* [httpWG.Wait()] returns, [close(output)] *)
| OutputDone.                   (* the output worker's loop ends, [outputWG.Done()] *)

Definition queue_closed (q : Queue) (s : State) : bool :=
  match q with
  | httpsURLs => httpsURLs_closed s
  | httpURLs => httpURLs_closed s
  end.

Definition pool (q : Queue) (s : State) : list Worker :=
  match q with
  | httpsURLs => httpsWorkers s
  | httpURLs => httpWorkers s
  end.

Definition set_worker (q : Queue) (w : nat) (st : Worker) (s : State) : State :=
  match q with
  | httpsURLs => set_httpsWorker w st s
  | httpURLs => set_httpWorker w st s
  end.

(** The scheme a worker puts in front of its target: the workers of the
    HTTPS queue probe [https://], those of the HTTP queue [http://]. *)
Definition scheme (q : Queue) : string :=
  match q with
  | httpsURLs => "https://"
  | httpURLs => "http://"
  end.

(** The body of a worker from the prober call to the test of its
    status code. *)
Definition probe (cfg : Config) (net : Client) (q : Queue) (url : string)
  : Z * option Result :=
  let withProto := scheme q +:+ url in
  let '(statusCode, redirectedURL) := getStatusAndRedirect net withProto (method cfg) in
  if negb (statusCode =? 0)
  then (statusCode, Some {| URL := withProto;
                            StatusCode := statusCode;
                            RedirectedURL := redirectedURL |})
  else (statusCode, None).

Definition step (cfg : Config) (s : State) (e : Event) : option State :=
  if panicked s then None else
  match main s with
  | Exited _ => None
  | _ =>
    match e with
    | MainSend w =>
        match main s with
        | Expanding ((q, url) :: rest) =>
            if queue_closed q s then None else
            match pool q s !! w with
            | Some Receiving =>
                Some (set_worker q w (Probing url) (set_main (Expanding rest) s))
            | _ => None
            end
        | _ => None
        end
    | MainSendClosed =>
        match main s with
        | Expanding ((q, url) :: rest) =>
            if queue_closed q s then Some (panic s) else None
        | _ => None
        end
    | MainClose =>
        match main s with
        | Expanding [] => Some (set_main Waiting (close_httpsURLs s))
        | _ => None
        end
    | MainWrite io =>
        match main s with
        | Waiting =>
            if outputWG s =? 0
            then Some (set_main (Exited (writeJSONFile io (results s))) s)
            else None
        | _ => None
        end
    | HttpsProbe i net =>
        match httpsWorkers s !! i with
        | Some (Probing url) =>
            let '(statusCode, found) := probe cfg net httpsURLs url in
            let s := log_attempt (mkAttempt httpsURLs url statusCode found) s in
            match found with
            | Some res => Some (set_httpsWorker i (Emitting url res) s)
            | None => Some (set_httpsWorker i (Forwarding url) s)
            end
        | _ => None
        end
    | HttpsEmit i =>
        match httpsWorkers s !! i with
        | Some (Emitting url res) =>
            if output_closed s then None else
            let s := receive_result res s in
            if preferHTTPS cfg
            then Some (set_httpsWorker i Receiving s)
            else Some (set_httpsWorker i (Forwarding url) s)
        | _ => None
        end
    | HttpsEmitClosed i =>
        match httpsWorkers s !! i with
        | Some (Emitting url res) =>
            if output_closed s then Some (panic s) else None
        | _ => None
        end
    | HttpsForward i j =>
        match httpsWorkers s !! i, httpWorkers s !! j with
        | Some (Forwarding url), Some Receiving =>
            if httpURLs_closed s then None else
            Some (set_httpWorker j (Probing url) (set_httpsWorker i Receiving s))
        | _, _ => None
        end
    | HttpsForwardClosed i =>
        match httpsWorkers s !! i with
        | Some (Forwarding url) =>
            if httpURLs_closed s then Some (panic s) else None
        | _ => None
        end
    | HttpsDone i =>
        match httpsWorkers s !! i with
        | Some Receiving =>
            if httpsURLs_closed s
            then Some (httpsWG_Done (set_httpsWorker i Finished s))
            else None
        | _ => None
        end
    | HttpProbe j net =>
        match httpWorkers s !! j with
        | Some (Probing url) =>
            let '(statusCode, found) := probe cfg net httpURLs url in
            let s := log_attempt (mkAttempt httpURLs url statusCode found) s in
            match found with
            | Some res => Some (set_httpWorker j (Emitting url res) s)
            | None => Some (set_httpWorker j Receiving s)
            end
        | _ => None
        end
    | HttpEmit j =>
        match httpWorkers s !! j with
        | Some (Emitting url res) =>
            if output_closed s then None else
            Some (set_httpWorker j Receiving (receive_result res s))
        | _ => None
        end
    | HttpEmitClosed j =>
        match httpWorkers s !! j with
        | Some (Emitting url res) =>
            if output_closed s then Some (panic s) else None
        | _ => None
        end
    | HttpDone j =>
        match httpWorkers s !! j with
        | Some Receiving =>
            if httpURLs_closed s
            then Some (httpWG_Done (set_httpWorker j Finished s))
            else None
        | _ => None
        end
    | CloseHTTP =>
        if (httpsWG s =? 0) && negb (httpURLs_closed s)
        then Some (close_httpURLs s) else None
    | CloseOutput =>
        if (httpWG s =? 0) && negb (output_closed s)
        then Some (close_output s) else None
    | OutputDone =>
        if output_closed s && (outputWG s =? 1)
        then Some (outputWG_Done s) else None
    end
  end.

(** A schedule is the list of steps taken, in order. *)
Fixpoint run (cfg : Config) (s : State) (schedule : list Event) : option State :=
  match schedule with
  | [] => Some s
  | e :: rest =>
      match step cfg s e with
      | Some s' => run cfg s' rest
      | None => None
      end
  end.

Definition reachable (cfg : Config) (lines : list string) (s : State) : Prop :=
  exists schedule, run cfg (init cfg lines) schedule = Some s.

(** ** Notions used in the statements *)

(** The results that arrived with a given status code, in arrival
    order. *)
Definition with_code (code : Z) (arrived : list Result) : list Result :=
  filter (fun r => StatusCode r = code) arrived.

(** A protocol that is [https] when the case of letters is ignored:
    five characters, each the letter of [https] at its place, small or
    capital.  Written without [ToLower]. *)
Definition either_case (small capital c : ascii) : bool :=
  Ascii.eqb c small || Ascii.eqb c capital.

Definition https_ignoring_case (proto : string) : bool :=
  match proto with
  | String c1 (String c2 (String c3 (String c4 (String c5 EmptyString)))) =>
      either_case "h" "H" c1 && either_case "t" "T" c2 && either_case "t" "T" c3
      && either_case "p" "P" c4 && either_case "s" "S" c5
  | _ => false
  end.

(** Clients for the examples: one whose requests cannot be built, one
    whose transport times out, one that answers every request with a
    fixed status and headers. *)
Definition client_bad_request : Client :=
  {| NewRequest := fun _ _ => None;
     Do := fun _ => DoError None |}.

Definition client_timeout : Client :=
  {| NewRequest := fun method url => Some (mkRequest method url [] false);
     Do := fun _ => DoError None |}.

Definition client_answering (statusCode : Z) (header : gmap string (list string)) : Client :=
  {| NewRequest := fun method url => Some (mkRequest method url [] false);
     Do := fun _ => DoResponse (mkResponse statusCode header) |}.

(** A worker that has left its loop and called [Done]. *)
Definition finished (w : Worker) : bool :=
  match w with
  | Finished => true
  | _ => false
  end.

(** The number of workers of a pool that have not yet called [Done]. *)
Fixpoint running (ws : list Worker) : Z :=
  match ws with
  | [] => 0
  | w :: ws => (if finished w then 0 else 1) + running ws
  end.

(** The result a worker is about to send, if it stands at the send. *)
Definition holding (R : Result -> Prop) (w : Worker) : Prop :=
  match w with
  | Emitting _ res => R res
  | _ => True
  end.

(** [R] holds of every result that exists in the pipeline: the ones the
    output worker has received, of which [results] is the aggregate, and
    the ones workers are about to send. *)
Definition results_all (R : Result -> Prop) (s : State) : Prop :=
  (exists arrived, results s = aggregate arrived /\ Forall R arrived) /\
  Forall (holding R) (httpsWorkers s) /\
  Forall (holding R) (httpWorkers s).

(** The bookkeeping of the shutdown: the wait groups count the workers
    still in their loops, no HTTPS worker leaves before [httpsURLs] is
    closed and no HTTP worker before [httpURLs] is, [httpURLs] is closed
    only at [httpsWG] zero and [output] only at [httpWG] zero, and
    [main] closes [httpsURLs] only after the input loop. *)
Record shutdown_inv (cfg : Config) (s : State) : Prop := mkShutdownInv {
  inv_httpsWG : httpsWG s = running (httpsWorkers s);
  inv_httpWG : httpWG s = running (httpWorkers s);
  inv_https_pool : length (httpsWorkers s) = pool_size cfg;
  inv_http_pool : length (httpWorkers s) = pool_size cfg;
  inv_https_open : httpsURLs_closed s = false ->
                   Forall (fun w => finished w = false) (httpsWorkers s);
  inv_http_open : httpURLs_closed s = false ->
                  Forall (fun w => finished w = false) (httpWorkers s);
  inv_http_closed : httpURLs_closed s = true -> httpsWG s = 0;
  inv_output_closed : output_closed s = true -> httpWG s = 0;
  inv_main : forall pending, main s = Expanding pending -> httpsURLs_closed s = false;
  inv_outputWG : outputWG s = 0 -> output_closed s = true;
  inv_exited : forall file, main s = Exited file ->
               outputWG s = 0 /\ exists io, file = writeJSONFile io (results s)
}.

(** The steps in which a goroutine sends on a channel that is closed. *)
Definition send_on_closed (e : Event) : bool :=
  match e with
  | MainSendClosed | HttpsEmitClosed _ | HttpsForwardClosed _ | HttpEmitClosed _ => true
  | _ => false
  end.

(** The steps of a worker goroutine. *)
Definition worker_event (e : Event) : bool :=
  match e with
  | HttpsProbe _ _ | HttpsEmit _ | HttpsEmitClosed _ | HttpsForward _ _
  | HttpsForwardClosed _ | HttpsDone _
  | HttpProbe _ _ | HttpEmit _ | HttpEmitClosed _ | HttpDone _ => true
  | _ => false
  end.

(** [net/http] only hands out responses whose status code it parsed as a
    non-negative number. *)
Definition nonneg_client (net : Client) : Prop :=
  forall req resp, Do net req = DoResponse resp -> 0 <= resp_StatusCode resp.

(** The clients that answer the prober calls of a step satisfy [Q]. *)
Definition clients_satisfy (Q : Client -> Prop) (e : Event) : Prop :=
  match e with
  | HttpsProbe _ net | HttpProbe _ net => Q net
  | _ => True
  end.

Definition nonneg_event (e : Event) : Prop := clients_satisfy nonneg_client e.

#[global] Instance Result_eq_dec : EqDecision Result.
Proof. solve_decision. Defined.

#[global] Instance Result_countable : Countable Result.
Proof.
  apply (inj_countable' (fun r => (URL r, StatusCode r, RedirectedURL r))
                        (fun t => mkResult t.1.1 t.1.2 t.2)).
  by intros [].
Defined.

(** The multiset sum of [f] over a list. *)
Fixpoint msum {A B : Type} `{Countable B} (f : A -> gmultiset B) (l : list A) : gmultiset B :=
  match l with
  | [] => ∅
  | x :: l => f x ⊎ msum f l
  end.

(** The target a worker has received and not yet probed. *)
Definition probing (w : Worker) : gmultiset string :=
  match w with
  | Probing url => {[+ url +]}
  | _ => ∅
  end.

(** The result a worker has built and not yet sent. *)
Definition held (w : Worker) : gmultiset Result :=
  match w with
  | Emitting _ res => {[+ res +]}
  | _ => ∅
  end.

(** The target an HTTPS worker still has to put on the HTTP queue in
    its current turn. *)
Definition forwarding (cfg : Config) (w : Worker) : gmultiset string :=
  match w with
  | Forwarding url => {[+ url +]}
  | Emitting url _ => if preferHTTPS cfg then ∅ else {[+ url +]}
  | _ => ∅
  end.

(** The targets among sends that go to queue [q]. *)
Definition sends_on (q : Queue) (sends : list (Queue * string)) : gmultiset string :=
  msum (fun '(q', target) => if decide (q' = q) then {[+ target +]} else ∅) sends.

Definition pending_on (q : Queue) (m : Main) : gmultiset string :=
  match m with
  | Expanding pending => sends_on q pending
  | _ => ∅
  end.

(** The targets probed at stage [q]. *)
Definition probed_on (q : Queue) (log : list Attempt) : gmultiset string :=
  msum (fun a => if decide (att_stage a = q) then {[+ att_target a +]} else ∅) log.

(** The results built by the prober calls. *)
Definition found_in (log : list Attempt) : gmultiset Result :=
  msum (fun a => match att_found a with Some res => {[+ res +]} | None => ∅ end) log.

(** The targets the HTTPS stage hands on to the HTTP stage: those
    without a result, and all of them unless [preferHTTPS] is set. *)
Definition handed_on (cfg : Config) (log : list Attempt) : gmultiset string :=
  msum (fun a =>
          match att_stage a, att_found a with
          | httpsURLs, None => {[+ att_target a +]}
          | httpsURLs, Some _ => if preferHTTPS cfg then ∅ else {[+ att_target a +]}
          | httpURLs, _ => ∅
          end) log.

(** Nothing is lost on the way: every result built by a prober call is
    with the output worker or still held by its worker; every target sent
    by the input loop, and every target the HTTPS stage hands on, is
    probed, held by a worker, or still ahead in the input loop. *)
Record conservation (cfg : Config) (lines : list string) (s : State) : Prop := {
  cons_results :
    exists arrived,
      results s = aggregate arrived /\
      list_to_set_disj arrived ⊎ msum held (httpsWorkers s) ⊎ msum held (httpWorkers s)
      = found_in (attempts s);
  cons_https :
    probed_on httpsURLs (attempts s) ⊎ msum probing (httpsWorkers s)
      ⊎ pending_on httpsURLs (main s)
    = sends_on httpsURLs (expand_input (skipDefault cfg) (probes cfg) lines);
  cons_http :
    probed_on httpURLs (attempts s) ⊎ msum probing (httpWorkers s)
      ⊎ msum (forwarding cfg) (httpsWorkers s) ⊎ pending_on httpURLs (main s)
    = sends_on httpURLs (expand_input (skipDefault cfg) (probes cfg) lines)
      ⊎ handed_on cfg (attempts s)
}.

(** What holds of every result a prober call gives rise to, whatever the
    client answers. *)
Definition sound_result (res : Result) : Prop :=
  StatusCode res <> 0 /\
  (RedirectedURL res <> "" -> 300 <= StatusCode res < 400).

(** What the log says of one prober call: without a result the status
    code was 0; with one it was not, and the result carries it together
    with the URL that was probed. *)
Definition sound_attempt (a : Attempt) : Prop :=
  match att_found a with
  | None => att_status a = 0
  | Some res =>
      att_status a <> 0 /\
      StatusCode res = att_status a /\
      URL res = scheme (att_stage a) +:+ att_target a
  end.

(** Configurations and schedules for the examples. *)
Definition cfg_prefer : Config :=
  {| concurrency := 2; probes := []; skipDefault := false;
     preferHTTPS := true; method := "GET" |}.

Definition cfg_single : Config :=
  {| concurrency := 1; probes := ["http:80"]; skipDefault := false;
     preferHTTPS := false; method := "GET" |}.

(** One line under [cfg_prefer]: the HTTPS worker probes, finds and
    emits; the HTTP worker then takes the same host name from the input
    loop and probes it. *)
Definition schedule_both (net : Client) : list Event :=
  [MainSend 0; HttpsProbe 0 net; HttpsEmit 0; MainSend 0; HttpProbe 0 net].

(** The rest of that run, up to the written file. *)
Definition schedule_finish : list Event :=
  [HttpEmit 0; MainClose; HttpsDone 0; CloseHTTP; HttpDone 0; CloseOutput;
   OutputDone; MainWrite FileWritten].

(** Under [cfg_single] no worker exists: [httpsWG.Wait()] returns at
    once, and the input loop then sends on the closed HTTP queue. *)
Definition schedule_closed_send : list Event := [CloseHTTP; MainSendClosed].

(** * Further definitions *)

(** ** The flag values *)

(** [type probeArgs []string] with its two methods: [Set] appends the
    value of one [-p] flag (it never fails), [String] joins the values
    with commas. *)
Definition probeArgs_Set (p : list string) (val : string) : list string :=
  p ++ [val].

Definition probeArgs_String (p : list string) : string :=
  String.concat "," p.

(** Go's [int] arithmetic: the result of an operation, wrapped into the
    two's complement range of [bits] bits. *)
Definition wrap (bits : Z) (x : Z) : Z :=
  (x + 2 ^ (bits - 1)) mod 2 ^ bits - 2 ^ (bits - 1).

(** [timeout := time.Duration(to * 1000000)]: the product is computed in
    [int], of [bits] bits (32 or 64 by platform), and then widened to the
    64 bits of a [Duration], in nanoseconds. *)
Definition timeout (bits : Z) (to : Z) : Z :=
  wrap 64 (wrap bits (to * 1000000)).

(** What [main] has when [flag.Parse] returns: the defaults of the
    flags, each [-p] value passed through [probeArgs.Set] in order. *)
Definition parse_probes (values : list string) : list string :=
  foldl probeArgs_Set [] values.

(** The targets among sends that go to queue [q], in the order sent. *)
Definition queue_targets (q : Queue) (sends : list (Queue * string)) : list string :=
  map snd (filter (fun send => send.1 = q) sends).

(** The number of results stored in the map, over all status codes. *)
Definition stored (results : gmap Z (list Result)) : nat :=
  map_fold (fun _ found n => (length found + n)%nat) 0%nat results.

(** ** How far a run is from its end *)

(** The steps an HTTPS worker can still take in its current turn, its
    final [Done] included, counting what it may hand to an HTTP worker. *)
Definition https_weight (w : Worker) : Z :=
  match w with
  | Finished => 0
  | Receiving => 1
  | Forwarding _ => 4
  | Emitting _ _ => 5
  | Probing _ => 6
  end.

Definition http_weight (w : Worker) : Z :=
  match w with
  | Receiving => 1
  | Emitting _ _ => 2
  | Probing _ => 3
  | _ => 0
  end.

Fixpoint wsum (f : Worker -> Z) (ws : list Worker) : Z :=
  match ws with
  | [] => 0
  | w :: ws => f w + wsum f ws
  end.

Definition send_weight (send : Queue * string) : Z :=
  match send.1 with
  | httpsURLs => 6
  | httpURLs => 3
  end.

Fixpoint sends_weight (sends : list (Queue * string)) : Z :=
  match sends with
  | [] => 0
  | send :: sends => send_weight send + sends_weight sends
  end.

Definition main_weight (m : Main) : Z :=
  match m with
  | Expanding pending => 2 + sends_weight pending
  | Waiting => 1
  | Exited _ => 0
  end.

(** An upper bound on the number of steps a state can still take. *)
Definition steps_left (s : State) : Z :=
  main_weight (main s)
  + wsum https_weight (httpsWorkers s)
  + wsum http_weight (httpWorkers s)
  + (if httpURLs_closed s then 0 else 1)
  + (if output_closed s then 0 else 1)
  + (if outputWG s =? 1 then 1 else 0)
  + (if panicked s then 0 else 1).

(** ** A scheduler *)

Definition is_receiving (w : Worker) : bool :=
  match w with Receiving => true | _ => false end.
Definition is_probing (w : Worker) : bool :=
  match w with Probing _ => true | _ => false end.
Definition is_emitting (w : Worker) : bool :=
  match w with Emitting _ _ => true | _ => false end.
Definition is_forwarding (w : Worker) : bool :=
  match w with Forwarding _ => true | _ => false end.

(** The index of the first worker of a pool at a given place. *)
Definition first_at (place : Worker -> bool) (ws : list Worker) : option nat :=
  fst <$> list_find (fun w => place w = true) ws.

(** One step that the state allows, when there is one: workers in the
    middle of a turn go first, then the input loop, then the shutdown in
    its order.  Prober calls are answered by [net]. *)
Definition next_event (net : Client) (s : State) : Event :=
  match first_at is_probing (httpWorkers s) with
  | Some j => HttpProbe j net
  | None =>
  match first_at is_emitting (httpWorkers s) with
  | Some j => HttpEmit j
  | None =>
  match first_at is_probing (httpsWorkers s) with
  | Some i => HttpsProbe i net
  | None =>
  match first_at is_emitting (httpsWorkers s) with
  | Some i => HttpsEmit i
  | None =>
  match first_at is_forwarding (httpsWorkers s) with
  | Some i => HttpsForward i (default 0%nat (first_at is_receiving (httpWorkers s)))
  | None =>
  match main s with
  | Expanding ((q, _) :: _) => MainSend (default 0%nat (first_at is_receiving (pool q s)))
  | Expanding [] => MainClose
  | _ =>
  match first_at is_receiving (httpsWorkers s) with
  | Some i => HttpsDone i
  | None =>
  if negb (httpURLs_closed s) then CloseHTTP else
  match first_at is_receiving (httpWorkers s) with
  | Some j => HttpDone j
  | None =>
  if negb (output_closed s) then CloseOutput else
  if outputWG s =? 1 then OutputDone else MainWrite FileWritten
  end end end end end end end end.

(** What the progress of a run rests on, beside the bookkeeping of the
    shutdown: HTTP workers never forward, [httpsURLs] is closed once
    [main] has left the input loop, and the output worker's wait group
    is at 1 or 0. *)
Record progress_inv (s : State) : Prop := mkProgressInv {
  pi_http_terminal : Forall (fun w => is_forwarding w = false) (httpWorkers s);
  pi_past_loop : (forall pending, main s <> Expanding pending) ->
                 httpsURLs_closed s = true;
  pi_outputWG : outputWG s = 0 \/ outputWG s = 1
}.

(** A lowered text, said without [ToLower]: it has no capital letter
    [A]..[Z], and it is the other text when the case of letters is
    ignored. *)
Definition is_capital (c : ascii) : bool :=
  let n := nat_of_ascii c in ((65 <=? n) && (n <=? 90))%nat.

Definition same_letter (a b : ascii) : bool :=
  Ascii.eqb a b
  || (is_capital a && (nat_of_ascii b =? nat_of_ascii a + 32)%nat)
  || (is_capital b && (nat_of_ascii a =? nat_of_ascii b + 32)%nat).

Fixpoint same_ignoring_case (a b : string) : bool :=
  match a, b with
  | EmptyString, EmptyString => true
  | String x a', String y b' => same_letter x y && same_ignoring_case a' b'
  | _, _ => false
  end.

Fixpoint has_capital (s : string) : bool :=
  match s with
  | EmptyString => false
  | String c rest => is_capital c || has_capital rest
  end.

(** A probe spec that names the HTTPS scheme, in any case of letters. *)
Definition https_spec (p : string) : Prop :=
  exists proto port,
    contains ":" proto = false /\ ToLower proto = "https" /\
    p = proto +:+ ":" +:+ port.

(** * Properties *)

(** ** Strings *)

Section StringFacts.

Lemma append_inj_l (a b c : string) : a +:+ b = a +:+ c -> b = c.
Proof.
  induction a as [|x a IH]; simpl; [done|].
  intros H. injection H as H. by apply IH.
Qed.

Lemma append_length (a b : string) :
  String.length (a +:+ b) = (String.length a + String.length b)%nat.
Proof. induction a as [|x a IH]; simpl; [done|]. by rewrite IH. Qed.

Lemma append_colon_ne (domain rest : string) :
  Sprintf_s_colon_s domain rest <> domain.
Proof.
  unfold Sprintf_s_colon_s. intros H.
  apply (f_equal String.length) in H.
  rewrite !append_length in H. simpl in H. lia.
Qed.

Lemma contains_append (c : ascii) (a b : string) :
  contains c (a +:+ b) = contains c a || contains c b.
Proof.
  induction a as [|x a IH]; simpl; [done|].
  rewrite IH. by rewrite orb_assoc.
Qed.

Lemma cut_None (sep : ascii) (s : string) :
  contains sep s = false -> cut sep s = None.
Proof.
  induction s as [|x s IH]; simpl; [done|].
  intros [Hx Hs]%orb_false_iff. rewrite Hx.
  by rewrite (IH Hs).
Qed.

Lemma cut_first (sep : ascii) (before after : string) :
  contains sep before = false ->
  cut sep (before +:+ String sep after) = Some (before, after).
Proof.
  induction before as [|x b IH]; simpl.
  - intros _. by rewrite Ascii.eqb_refl.
  - intros [Hx Hb]%orb_false_iff. rewrite Hx.
    by rewrite (IH Hb).
Qed.

Lemma SplitN2_no_sep (sep : ascii) (s : string) :
  contains sep s = false -> SplitN2 s sep = [s].
Proof. intros H. unfold SplitN2. by rewrite (cut_None _ _ H). Qed.

Lemma SplitN2_first (sep : ascii) (before after : string) :
  contains sep before = false ->
  SplitN2 (before +:+ String sep after) sep = [before; after].
Proof. intros H. unfold SplitN2. by rewrite (cut_first _ _ _ H). Qed.

(** A spec with a colon is neither of the template names. *)
Lemma colon_not_template (p : string) :
  contains ":" p = true ->
  String.eqb p "xlarge" = false /\ String.eqb p "large" = false.
Proof.
  intros H. split; apply String.eqb_neq; intros ->; discriminate H.
Qed.

Lemma to_int_digits (a : Z) :
  Z.to_int a <> Decimal.Pos Decimal.Nil /\ Z.to_int a <> Decimal.Neg Decimal.Nil.
Proof.
  destruct a as [|p|p]; simpl; split; try discriminate;
    intros H; injection H as H; by apply DecimalPos.Unsigned.to_uint_nonnil in H.
Qed.

Lemma Sprintf_d_parse (a : Z) :
  NilZero.int_of_string (Sprintf_d a) = Some (Z.to_int a).
Proof.
  destruct (to_int_digits a) as [Hp Hn].
  unfold Sprintf_d. by apply NilZero.isi.
Qed.

Lemma Sprintf_d_inj (a b : Z) : Sprintf_d a = Sprintf_d b -> a = b.
Proof.
  intros H. apply (f_equal NilZero.int_of_string) in H.
  rewrite !Sprintf_d_parse in H. injection H as H.
  by apply DecimalZ.to_int_inj.
Qed.

#[global] Instance Sprintf_d_Inj : Inj (=) (=) Sprintf_d.
Proof. intros a b. apply Sprintf_d_inj. Qed.

Lemma lower_ascii_h (c : ascii) :
  Ascii.eqb (lower_ascii c) "h" = either_case "h" "H" c.
Proof. by destruct c as [[] [] [] [] [] [] [] []]. Qed.

Lemma lower_ascii_t (c : ascii) :
  Ascii.eqb (lower_ascii c) "t" = either_case "t" "T" c.
Proof. by destruct c as [[] [] [] [] [] [] [] []]. Qed.

Lemma lower_ascii_p (c : ascii) :
  Ascii.eqb (lower_ascii c) "p" = either_case "p" "P" c.
Proof. by destruct c as [[] [] [] [] [] [] [] []]. Qed.

Lemma lower_ascii_s (c : ascii) :
  Ascii.eqb (lower_ascii c) "s" = either_case "s" "S" c.
Proof. by destruct c as [[] [] [] [] [] [] [] []]. Qed.

Lemma lower_bytes_https (s : string) :
  String.eqb (lower_bytes s) "https" = https_ignoring_case s.
Proof.
  destruct s as [|c1 [|c2 [|c3 [|c4 [|c5 [|c6 s]]]]]]; simpl;
    rewrite ?lower_ascii_h, ?lower_ascii_t, ?lower_ascii_p, ?lower_ascii_s;
    repeat match goal with
           | |- context [either_case ?a ?b ?c] => destruct (either_case a b c)
           end; done.
Qed.

Lemma either_case_ascii (small capital c : ascii) :
  either_case small capital c = true -> c = small \/ c = capital.
Proof.
  unfold either_case. intros [H|H]%orb_true_iff; apply Ascii.eqb_eq in H; auto.
Qed.

Lemma https_ignoring_case_ascii (s : string) :
  https_ignoring_case s = true -> isASCII s = true.
Proof.
  destruct s as [|c1 [|c2 [|c3 [|c4 [|c5 [|c6 s]]]]]]; simpl; try done.
  intros ((((H1 & H2)%andb_true_iff & H3)%andb_true_iff
          & H4)%andb_true_iff & H5)%andb_true_iff.
  apply either_case_ascii in H1, H2, H3, H4, H5.
  by destruct H1 as [-> | ->], H2 as [-> | ->], H3 as [-> | ->],
              H4 as [-> | ->], H5 as [-> | ->].
Qed.

(** The comparison of line 219 holds exactly for the spellings of
    [https] in small and capital letters. *)
Lemma ToLower_https (proto : string) :
  String.eqb (ToLower proto) "https" = https_ignoring_case proto.
Proof.
  unfold ToLower. destruct (isASCII proto) eqn:Hascii.
  - apply lower_bytes_https.
  - destruct (https_ignoring_case proto) eqn:Hcase.
    + apply https_ignoring_case_ascii in Hcase. congruence.
    + apply String.eqb_neq. by apply Map_unicode_ToLower_https.
Qed.

Lemma ToLower_ascii (s : string) :
  isASCII s = true -> ToLower s = lower_bytes s.
Proof. unfold ToLower. by intros ->. Qed.

End StringFacts.

(** ** The expander *)

Section Expander.

Lemma expand_ports_in (domain : string) (ports : list string) (q : Queue) (t : string) :
  In (q, t) (expand_ports domain ports) <->
  exists port, In port ports /\ t = Sprintf_s_colon_s domain port.
Proof.
  unfold expand_ports. rewrite in_flat_map. split.
  - intros (port & Hp & Hin). exists port. split; [done|].
    simpl in Hin. destruct Hin as [H|[H|[]]]; by inversion H.
  - intros (port & Hp & ->). exists port. split; [done|].
    destruct q; simpl; auto.
Qed.

(** Every target of a probe spec carries a port part: it is the host
    name followed by a colon and more. *)
Lemma expand_probe_target (domain p : string) (q : Queue) (t : string) :
  In (q, t) (expand_probe domain p) ->
  exists rest, t = Sprintf_s_colon_s domain rest.
Proof.
  unfold expand_probe.
  destruct (String.eqb p "xlarge").
  { intros (port & _ & ->)%expand_ports_in. eauto. }
  destruct (String.eqb p "large").
  { intros (port & _ & ->)%expand_ports_in. eauto. }
  destruct (SplitN2 p ":") as [|proto [|port [|? ?]]]; simpl; try tauto.
  destruct (String.eqb (ToLower proto) "https"); simpl;
    intros [H|[]]; inversion H; eauto.
Qed.

Lemma expand_probe_not_bare (domain p : string) (q : Queue) :
  ~ In (q, domain) (expand_probe domain p).
Proof.
  intros (rest & H)%expand_probe_target.
  symmetry in H. by apply append_colon_ne in H.
Qed.

Lemma expand_probe_explicit (domain proto port : string) :
  contains ":" proto = false ->
  expand_probe domain (proto +:+ ":" +:+ port) =
    if String.eqb (ToLower proto) "https"
    then [(httpsURLs, domain +:+ ":" +:+ port)]
    else [(httpURLs, domain +:+ ":" +:+ port)].
Proof.
  intros Hproto. unfold expand_probe.
  assert (contains ":" (proto +:+ ":" +:+ port) = true) as Hc.
  { rewrite contains_append. simpl. by rewrite orb_true_r. }
  destruct (colon_not_template _ Hc) as [-> ->].
  change (proto +:+ ":" +:+ port) with (proto +:+ String ":" port).
  by rewrite (SplitN2_first _ _ _ Hproto).
Qed.

Lemma expand_probe_malformed (domain p : string) :
  contains ":" p = false -> p <> "xlarge" -> p <> "large" ->
  expand_probe domain p = [].
Proof.
  intros Hc Hx Hl. unfold expand_probe.
  apply String.eqb_neq in Hx, Hl. rewrite Hx, Hl.
  by rewrite (SplitN2_no_sep _ _ Hc).
Qed.

Lemma expand_with_probes (skip : bool) (probes : list string) (domain : string) :
  probes <> [] ->
  expand skip probes domain = flat_map (expand_probe domain) probes.
Proof.
  intros H. unfold expand. destruct probes; [done|].
  simpl. by rewrite andb_false_r.
Qed.

End Expander.

(** C7: a probe spec [proto:port] whose [proto] has no colon puts exactly
    one target, [hostname:port], on one queue: the HTTPS queue when
    [proto] is [https] in any case of letters, the HTTP queue for every
    other [proto]; the other specs of the list expand around it as they
    do alone. *)
Theorem explicit_probe_one_queue
    (skip : bool) (before after : list string) (domain proto port : string) :
  contains ":" proto = false ->
  expand_probe domain (proto +:+ ":" +:+ port) =
    [(if https_ignoring_case proto then httpsURLs else httpURLs,
      domain +:+ ":" +:+ port)] /\
  expand skip (before ++ (proto +:+ ":" +:+ port) :: after) domain =
    flat_map (expand_probe domain) before
    ++ [(if https_ignoring_case proto then httpsURLs else httpURLs,
         domain +:+ ":" +:+ port)]
    ++ flat_map (expand_probe domain) after.
Proof.
  intros Hproto.
  assert (expand_probe domain (proto +:+ ":" +:+ port) =
    [(if https_ignoring_case proto then httpsURLs else httpURLs,
      domain +:+ ":" +:+ port)]) as Hone.
  { rewrite (expand_probe_explicit _ _ _ Hproto), ToLower_https.
    by destruct (https_ignoring_case proto). }
  split; [done|].
  rewrite expand_with_probes by (by destruct before).
  rewrite flat_map_app. simpl. by rewrite Hone.
Qed.

(** C8: a probe spec without a colon that is not a template name puts
    nothing on either queue, and the sends of the whole input are those
    of the other specs, for every line. *)
Theorem malformed_probe_skipped
    (skip : bool) (before after : list string) (p : string) (lines : list string) :
  contains ":" p = false -> p <> "xlarge" -> p <> "large" ->
  (forall domain, expand_probe domain p = []) /\
  expand_input skip (before ++ p :: after) lines =
    flat_map (fun line => flat_map (expand_probe (ToLower line)) (before ++ after)) lines.
Proof.
  intros Hc Hx Hl. split.
  { intros domain. by apply expand_probe_malformed. }
  unfold expand_input. induction lines as [|line lines IH]; simpl; [done|].
  rewrite IH. f_equal.
  rewrite expand_with_probes by (by destruct before).
  rewrite !flat_map_app. simpl.
  by rewrite (expand_probe_malformed _ _ Hc Hx Hl).
Qed.

(** C9: the bare host name is put on a queue exactly when [skipDefault]
    is false and no probe spec is given, and then it is put on both
    queues, HTTPS first; with any probe spec only the specs are
    expanded; with [skipDefault] set and no spec nothing is sent. *)
Theorem default_probes_iff (skip : bool) (probes : list string) (domain : string) :
  (forall q, In (q, domain) (expand skip probes domain) <->
             skip = false /\ probes = []) /\
  (skip = false -> probes = [] ->
   expand skip probes domain = [(httpsURLs, domain); (httpURLs, domain)]) /\
  (probes <> [] ->
   expand skip probes domain = flat_map (expand_probe domain) probes) /\
  (skip = true -> probes = [] -> expand skip probes domain = []).
Proof.
  split; [|split; [|split]].
  - intros q. unfold expand.
    destruct skip, probes as [|p probes]; simpl.
    + split; [tauto|]. by intros [? _].
    + split; [|by intros [? _]].
      intros H. exfalso. apply in_app_or in H as [H|H].
      * by apply expand_probe_not_bare in H.
      * apply in_flat_map in H as (p' & _ & H).
        by apply expand_probe_not_bare in H.
    + split; [done|]. intros _. destruct q; auto.
    + split; [|by intros [_ ?]].
      intros H. exfalso. apply in_app_or in H as [H|H].
      * by apply expand_probe_not_bare in H.
      * apply in_flat_map in H as (p' & _ & H).
        by apply expand_probe_not_bare in H.
  - by intros -> ->.
  - apply expand_with_probes.
  - by intros -> ->.
Qed.

(** C10: port 8083 is in the [large] template and not in the [xlarge]
    one, so for every host name the [large] template sends a target that
    the [xlarge] template does not. *)
Theorem large_not_within_xlarge :
  In "8083" large /\ ~ In "8083" xlarge /\
  forall domain q,
    In (q, Sprintf_s_colon_s domain "8083") (expand_probe domain "large") /\
    ~ In (q, Sprintf_s_colon_s domain "8083") (expand_probe domain "xlarge").
Proof.
  assert (In "8083" large) as Hl by (unfold large; simpl; tauto).
  assert (~ In "8083" xlarge) as Hx.
  { rewrite <- list_elem_of_In. apply (bool_decide_unpack _). by vm_compute. }
  split; [done|]. split; [done|].
  intros domain q.
  change (expand_probe domain "large") with (expand_ports domain large).
  change (expand_probe domain "xlarge") with (expand_ports domain xlarge).
  split.
  - apply expand_ports_in. eauto.
  - intros (port & Hp & Heq)%expand_ports_in.
    unfold Sprintf_s_colon_s in Heq.
    apply append_inj_l in Heq. injection Heq as Heq.
    cbv [String.append] in Heq. apply Hx. by rewrite Heq.
Qed.

(** ** The prober *)

Section Prober.

Variable client : Client.
Variables url method : string.

Lemma getStatusAndRedirect_response (statusCode : Z) (redirectedURL : string) :
  getStatusAndRedirect client url method = (statusCode, redirectedURL) ->
  statusCode <> 0 ->
  exists req resp,
    NewRequest client method url = Some req /\
    Do client (connection_close req) = DoResponse resp /\
    statusCode = resp_StatusCode resp /\
    redirectedURL =
      if (300 <=? statusCode) && (statusCode <? 400)
      then Header_Get (resp_Header resp) "Location" else "".
Proof.
  unfold getStatusAndRedirect.
  destruct (NewRequest client method url) as [req|] eqn:Hreq;
    [|intros [= <- _] H; lia].
  destruct (Do client (connection_close req)) as [resp|] eqn:Hdo;
    [|intros [= <- _] H; lia].
  intros [= <- <-] _. by exists req, resp.
Qed.

Lemma getStatusAndRedirect_redirect (statusCode : Z) (redirectedURL : string) :
  getStatusAndRedirect client url method = (statusCode, redirectedURL) ->
  redirectedURL <> "" -> 300 <= statusCode < 400.
Proof.
  unfold getStatusAndRedirect.
  destruct (NewRequest client method url) as [req|]; [|by intros [= _ <-]].
  destruct (Do client (connection_close req)) as [resp|]; [|by intros [= _ <-]].
  destruct (300 <=? resp_StatusCode resp) eqn:Hlo;
    destruct (resp_StatusCode resp <? 400) eqn:Hhi; simpl;
    intros [= <- <-]; try done.
  intros _. lia.
Qed.

End Prober.

(** C5: when [http.NewRequest] fails, and when [client.Do] returns an
    error (a timeout is one), the prober returns [(0, "")]; whenever it
    returns status 0 the redirect string is empty. *)
Theorem prober_failure_sentinel (client : Client) (url method : string) :
  (NewRequest client method url = None ->
   getStatusAndRedirect client url method = (0, "")) /\
  (forall req resp,
     NewRequest client method url = Some req ->
     Do client (connection_close req) = DoError resp ->
     getStatusAndRedirect client url method = (0, "")) /\
  (forall redirectedURL,
     getStatusAndRedirect client url method = (0, redirectedURL) ->
     redirectedURL = "").
Proof.
  split; [|split].
  - intros H. unfold getStatusAndRedirect. by rewrite H.
  - intros req resp Hreq Hdo. unfold getStatusAndRedirect. by rewrite Hreq, Hdo.
  - intros redirectedURL H.
    destruct (decide (redirectedURL = "")) as [|Hne]; [done|].
    pose proof (getStatusAndRedirect_redirect _ _ _ _ _ H Hne). lia.
Qed.

(** ** Aggregation and the report *)

Section Report.

Lemma collect_lookup (results : gmap Z (list Result)) (res : Result) (code : Z) :
  collect results res !! code =
    if decide (StatusCode res = code)
    then Some (default [] (results !! code) ++ [res])
    else results !! code.
Proof.
  unfold collect. destruct (decide (StatusCode res = code)) as [<-|Hne].
  - by rewrite lookup_insert_eq.
  - by rewrite lookup_insert_ne.
Qed.

Lemma foldl_collect_lookup (arrived : list Result) (acc : gmap Z (list Result)) (code : Z) :
  foldl collect acc arrived !! code =
    match with_code code arrived with
    | [] => acc !! code
    | found => Some (default [] (acc !! code) ++ found)
    end.
Proof.
  revert acc. unfold with_code.
  induction arrived as [|r arrived IH]; intros acc; simpl; [done|].
  rewrite IH, collect_lookup, filter_cons.
  destruct (decide (StatusCode r = code)) as [Heq|Hne]; simpl.
  - destruct (filter _ arrived); simpl; [done|].
    by rewrite <- app_assoc.
  - done.
Qed.

Lemma aggregate_lookup (arrived : list Result) (code : Z) :
  aggregate arrived !! code =
    match with_code code arrived with
    | [] => None
    | found => Some found
    end.
Proof.
  unfold aggregate. rewrite foldl_collect_lookup, lookup_empty.
  by destruct (with_code code arrived).
Qed.

Lemma with_code_nonempty (arrived : list Result) (r : Result) :
  In r arrived -> with_code (StatusCode r) arrived <> [].
Proof.
  intros Hin Hnil.
  assert (r ∈ with_code (StatusCode r) arrived) as H.
  { apply list_elem_of_filter. split; [done|]. by apply list_elem_of_In. }
  rewrite Hnil in H. by apply elem_of_nil in H.
Qed.

Lemma with_code_In (arrived : list Result) (code : Z) :
  with_code code arrived <> [] ->
  exists r, In r arrived /\ StatusCode r = code.
Proof.
  destruct (with_code code arrived) as [|r found] eqn:Hf; [done|]. intros _.
  assert (r ∈ with_code code arrived) as H by (rewrite Hf; left).
  apply list_elem_of_filter in H as [Hc Hin].
  exists r. split; [by apply list_elem_of_In|done].
Qed.

Lemma entries_map (statusCode : Z) (resList : list Result) :
  entries statusCode resList = map (entry statusCode) resList.
Proof.
  unfold entries.
  enough (forall acc, foldl (fun entries res => entries ++ [entry statusCode res]) acc resList
                      = acc ++ map (entry statusCode) resList) as H by apply H.
  induction resList as [|r resList IH]; intros acc; simpl.
  - by rewrite app_nil_r.
  - rewrite IH. by rewrite <- app_assoc.
Qed.

(** The keys of [jsonData] are the printed keys of [results], each
    with the entries of its own list. *)
Lemma jsonData_spec (results : gmap Z (list Result)) :
  (forall code, jsonData results !! Sprintf_d code = entries code <$> results !! code) /\
  (forall key, is_Some (jsonData results !! key) ->
               exists code, key = Sprintf_d code /\ is_Some (results !! code)).
Proof.
  unfold jsonData.
  apply (map_fold_weak_ind (fun (acc : gmap string (list JSON)) (m : gmap Z (list Result)) =>
    (forall code, acc !! Sprintf_d code = entries code <$> m !! code) /\
    (forall key, is_Some (acc !! key) ->
                 exists code, key = Sprintf_d code /\ is_Some (m !! code)))).
  - split.
    + intros code. by rewrite !lookup_empty.
    + intros key [x Hx]. by rewrite lookup_empty in Hx.
  - intros i x m acc Hi [IHa IHb]. split.
    + intros code. destruct (decide (i = code)) as [->|Hne].
      * by rewrite !lookup_insert_eq.
      * rewrite !lookup_insert_ne; [apply IHa|done|].
        intros Heq. by apply Sprintf_d_inj in Heq.
    + intros key Hkey. destruct (decide (Sprintf_d i = key)) as [<-|Hne].
      * exists i. split; [done|]. by rewrite lookup_insert_eq.
      * rewrite lookup_insert_ne in Hkey by done.
        destruct (IHb key Hkey) as (code & -> & Hcode).
        exists code. split; [done|].
        rewrite lookup_insert_ne; [done|]. by intros ->.
Qed.

End Report.

(** C6: once the file is written, the document of an aggregated result
    set has a key exactly for the printed status codes that arrived,
    different codes print to different keys, and the value under a code
    is an array with one element per result that arrived with this code,
    in arrival order: [{url, redirected_url}] objects for a code in
    [300,400), bare URL strings for any other code. *)
Theorem report_groups_by_status (arrived : list Result) :
  exists doc,
    writeJSONFile FileWritten (aggregate arrived) = Some doc /\
    (forall key, is_Some (doc !! key) <->
                 exists r, In r arrived /\ key = Sprintf_d (StatusCode r)) /\
    (forall code code', Sprintf_d code = Sprintf_d code' -> code = code') /\
    (forall r, In r arrived ->
       let code := StatusCode r in
       exists items,
         doc !! Sprintf_d code = Some (JArray items) /\
         length items = length (with_code code arrived) /\
         (300 <= code < 400 ->
          items = map (fun res => JObject [("url", JString (URL res));
                                           ("redirected_url", JString (RedirectedURL res))])
                      (with_code code arrived)) /\
         (~ 300 <= code < 400 ->
          items = map (fun res => JString (URL res)) (with_code code arrived))).
Proof.
  destruct (jsonData_spec (aggregate arrived)) as [Hcode Hkey].
  eexists. split; [reflexivity|]. split; [|split].
  - intros key. rewrite lookup_fmap, fmap_is_Some. split.
    + intros (code & -> & Hsome)%Hkey.
      rewrite aggregate_lookup in Hsome.
      destruct (with_code_In arrived code) as (r & Hin & <-).
      { intros Hnil. rewrite Hnil in Hsome. by destruct Hsome. }
      by exists r.
    + intros (r & Hin & ->). rewrite Hcode, aggregate_lookup.
      pose proof (with_code_nonempty _ _ Hin).
      by destruct (with_code (StatusCode r) arrived).
  - apply Sprintf_d_inj.
  - intros r Hin code. subst code.
    pose proof (with_code_nonempty _ _ Hin) as Hne.
    exists (map (entry (StatusCode r)) (with_code (StatusCode r) arrived)).
    split; [|split; [|split]].
    + rewrite lookup_fmap, Hcode, aggregate_lookup.
      destruct (with_code (StatusCode r) arrived) as [|r0 found]; [done|].
      simpl. by rewrite entries_map.
    + by rewrite length_map.
    + intros [Hlo Hhi]. apply map_ext. intros res. unfold entry.
      apply Z.leb_le in Hlo. apply Z.ltb_lt in Hhi. by rewrite Hlo, Hhi.
    + intros Hout. apply map_ext. intros res. unfold entry.
      destruct (300 <=? StatusCode r) eqn:Hlo;
        destruct (StatusCode r <? 400) eqn:Hhi; simpl; try done.
      apply Z.leb_le in Hlo. apply Z.ltb_lt in Hhi. lia.
Qed.

(** ** The pipeline *)

Section Pools.

Lemma running_nonneg (ws : list Worker) : 0 <= running ws.
Proof. induction ws as [|w ws IH]; simpl; [lia|]. destruct (finished w); lia. Qed.

Lemma running_replicate (n : nat) : running (replicate n Receiving) = Z.of_nat n.
Proof. induction n as [|n IH]; [done|]. simpl replicate. simpl running. lia. Qed.

Lemma running_insert (ws : list Worker) (i : nat) (w w' : Worker) :
  ws !! i = Some w ->
  running (<[i := w']> ws) =
    running ws - (if finished w then 0 else 1) + (if finished w' then 0 else 1).
Proof.
  revert i. induction ws as [|x ws IH]; intros [|i] H; simpl in *; try done.
  - injection H as ->. lia.
  - rewrite (IH _ H). lia.
Qed.

Lemma running_zero (ws : list Worker) :
  running ws = 0 -> Forall (fun w => w = Finished) ws.
Proof.
  induction ws as [|w ws IH]; simpl; [by constructor|].
  pose proof (running_nonneg ws) as Hpos. intros H.
  destruct w; simpl in H; try lia.
  constructor; [done|]. apply IH. lia.
Qed.

Lemma running_none_finished (ws : list Worker) :
  Forall (fun w => finished w = false) ws -> running ws = Z.of_nat (length ws).
Proof.
  induction 1 as [|w ws Hw _ IH]; [done|].
  simpl running. simpl length. rewrite Hw, IH. lia.
Qed.

Lemma running_zero_lookup (ws : list Worker) (i : nat) (w : Worker) :
  running ws = 0 -> ws !! i = Some w -> w = Finished.
Proof.
  intros H%running_zero Hi.
  by apply (Forall_lookup_1 _ _ _ _ H Hi).
Qed.

Lemma none_finished_lookup (ws : list Worker) (i : nat) (w : Worker) :
  Forall (fun w => finished w = false) ws -> ws !! i = Some w -> finished w = false.
Proof. intros H Hi. by apply (Forall_lookup_1 _ _ _ _ H Hi). Qed.

End Pools.

(** ** Shutdown bookkeeping *)

(** A property kept by every step is kept by every run. *)
Lemma run_invariant (cfg : Config) (P : State -> Prop) :
  (forall s e s', P s -> step cfg s e = Some s' -> P s') ->
  forall schedule s s', P s -> run cfg s schedule = Some s' -> P s'.
Proof.
  intros Hstep schedule.
  induction schedule as [|e schedule IH]; intros s s' Hs; simpl.
  - by intros [= <-].
  - destruct (step cfg s e) as [s1|] eqn:He; [|done].
    apply IH. by eapply Hstep.
Qed.

Lemma shutdown_inv_init cfg lines : shutdown_inv cfg (init cfg lines).
Proof.
  constructor; simpl; try done.
  - by rewrite running_replicate.
  - by rewrite running_replicate.
  - by rewrite length_replicate.
  - by rewrite length_replicate.
  - intros _. apply Forall_replicate. done.
  - intros _. apply Forall_replicate. done.
Qed.

(** Use the closing conditions at hand in the bookkeeping facts. *)
Ltac use_flags :=
  repeat match goal with
  | H : ?b = ?b -> _ |- _ => specialize (H eq_refl)
  | H : true = false -> _ |- _ => clear H
  | H : false = true -> _ |- _ => clear H
  | H : (_ =? _) = true |- _ => apply Z.eqb_eq in H
  | H : (_ =? _) = false |- _ => apply Z.eqb_neq in H
  | H : _ && _ = true |- _ => apply andb_true_iff in H as [? ?]
  | H : negb _ = true |- _ => apply negb_true_iff in H
  | H : ?x = false, H' : ?x = true -> _ |- _ => clear H'
  | H : ?x = true, H' : ?x = false -> _ |- _ => clear H'
  | H : ?x = false, H' : ?x = false -> _ |- _ => specialize (H' H)
  | H : ?x = true, H' : ?x = true -> _ |- _ => specialize (H' H)
  end.

(** What a worker found at an index tells about the counts. *)
Ltac use_workers :=
  repeat match goal with
  | H : running ?ws = 0, Hi : ?ws !! _ = Some ?w |- _ =>
      lazymatch w with
      | Finished => fail
      | _ => pose proof (running_zero_lookup _ _ _ H Hi); simplify_eq
      end
  | H : Forall (fun w => finished w = false) ?ws, Hi : ?ws !! _ = Some ?w |- _ =>
      lazymatch goal with
      | _ : finished w = false |- _ => fail
      | _ => pose proof (none_finished_lookup _ _ _ H Hi)
      end
  end.

Ltac pool_goal :=
  repeat match goal with
  | |- context [running (<[_ := _]> _)] => erewrite running_insert by eassumption; simpl
  | |- context [length (<[_ := _]> _)] => rewrite length_insert
  | |- Forall _ (<[_ := _]> _) => apply Forall_insert; [|done]
  end.

Lemma shutdown_inv_step cfg s e s' :
  shutdown_inv cfg s -> step cfg s e = Some s' -> shutdown_inv cfg s'.
Proof.
  intros [Hwg1 Hwg2 Hlen1 Hlen2 Hopen1 Hopen2 Hclosed1 Hclosed2 Hmain Hout Hexit] H. destruct s. simpl in *.
  unfold step in H. simpl in H.
  destruct e; simpl in H.
  all: repeat (case_match; simplify_eq; try discriminate).
  all: try (destruct q; simpl in * ).
  all: constructor; simpl; intros; simplify_eq; use_flags; use_workers; pool_goal;
       try done; try lia; try (by eapply Hmain).
  split; [done|]. by exists io.
Qed.

Lemma shutdown_inv_run cfg schedule s s' :
  shutdown_inv cfg s -> run cfg s schedule = Some s' -> shutdown_inv cfg s'.
Proof. apply run_invariant. intros s0 e s1. apply shutdown_inv_step. Qed.


Lemma output_closed_all_done cfg s :
  shutdown_inv cfg s -> output_closed s = true ->
  running (httpWorkers s) = 0 /\ running (httpsWorkers s) = 0.
Proof.
  intros [Hwg1 Hwg2 Hlen1 Hlen2 Hopen1 Hopen2 Hclosed1 Hclosed2 Hmain _ _] Hout.
  specialize (Hclosed2 Hout).
  rewrite Hwg2 in Hclosed2. split; [done|].
  destruct (httpURLs_closed s) eqn:Hhttp.
  - rewrite <- Hwg1. by apply Hclosed1.
  - specialize (Hopen2 eq_refl).
    apply running_none_finished in Hopen2.
    assert (length (httpsWorkers s) = 0%nat) as Hlen by lia.
    destruct (httpsWorkers s); [done|discriminate Hlen].
Qed.

Lemma pool_size_pos cfg : 2 <= concurrency cfg -> (1 <= pool_size cfg)%nat.
Proof.
  intros H. unfold pool_size.
  rewrite Z.quot_div_nonneg by lia.
  assert (1 <= concurrency cfg / 2) by (apply Z.div_le_lower_bound; lia). lia.
Qed.


(** While an HTTPS worker is in its loop the HTTP queue is open. *)
Lemma https_worker_http_open cfg s i w :
  shutdown_inv cfg s -> httpsWorkers s !! i = Some w -> finished w = false ->
  httpURLs_closed s = false.
Proof.
  intros [Hwg1 _ _ _ _ _ Hclosed1 _ _ _ _] Hi Hw.
  destruct (httpURLs_closed s) eqn:Hc; [|done].
  specialize (Hclosed1 eq_refl). rewrite Hwg1 in Hclosed1.
  rewrite (running_zero_lookup _ _ _ Hclosed1 Hi) in Hw. discriminate Hw.
Qed.

(** While any worker is in its loop the output channel is open. *)
Lemma worker_output_open cfg s i w :
  shutdown_inv cfg s ->
  httpsWorkers s !! i = Some w \/ httpWorkers s !! i = Some w ->
  finished w = false ->
  output_closed s = false.
Proof.
  intros Hinv Hi Hw. destruct (output_closed s) eqn:Hc; [|done].
  destruct (output_closed_all_done _ _ Hinv Hc) as [Hhttp Hhttps].
  destruct Hi as [Hi|Hi].
  - rewrite (running_zero_lookup _ _ _ Hhttps Hi) in Hw. discriminate Hw.
  - rewrite (running_zero_lookup _ _ _ Hhttp Hi) in Hw. discriminate Hw.
Qed.

(** The input loop meets a closed queue only when the pools are empty,
    and then it is the HTTP queue. *)
Lemma main_send_closed cfg s q url rest :
  shutdown_inv cfg s -> main s = Expanding ((q, url) :: rest) ->
  queue_closed q s = true ->
  q = httpURLs /\ pool_size cfg = 0%nat.
Proof.
  intros [Hwg1 _ Hlen1 _ Hopen1 _ Hclosed1 _ Hmain _ _] Hpending Hq.
  specialize (Hmain _ Hpending).
  destruct q; simpl in Hq; [congruence|]. split; [done|].
  specialize (Hclosed1 Hq). specialize (Hopen1 Hmain).
  apply running_none_finished in Hopen1. lia.
Qed.

(** A step that sends on a closed channel can only be the input loop
    meeting a closed HTTP queue, with both pools empty. *)
Lemma send_on_closed_only_main cfg s e s' :
  shutdown_inv cfg s -> step cfg s e = Some s' -> send_on_closed e = true ->
  e = MainSendClosed /\ pool_size cfg = 0%nat.
Proof.
  intros Hinv H He.
  destruct e; try discriminate He; unfold step in H;
    repeat (case_match; simplify_eq; try discriminate).
  - split; [done|]. by eapply main_send_closed.
  - assert (output_closed s = false) by (eapply worker_output_open; eauto). congruence.
  - assert (output_closed s = false) by (eapply worker_output_open; eauto). congruence.
  - assert (httpURLs_closed s = false) by (eapply https_worker_http_open; eauto). congruence.
  - assert (httpURLs_closed s = false) by (eapply https_worker_http_open; eauto). congruence.
  - assert (output_closed s = false) by (eapply worker_output_open; eauto). congruence.
  - assert (output_closed s = false) by (eapply worker_output_open; eauto). congruence.
Qed.

Lemma panicked_step cfg s e s' :
  step cfg s e = Some s' -> panicked s' = true -> send_on_closed e = true.
Proof.
  intros H Hp. unfold step in H.
  destruct (panicked s) eqn:Hs; [done|].
  destruct s. simpl in *.
  destruct e; try done; simpl in H;
    repeat (case_match; simplify_eq; try discriminate);
    try (destruct q; simpl in * ); simplify_eq.
Qed.

Lemma panicked_run cfg schedule s s' :
  shutdown_inv cfg s -> panicked s = false ->
  run cfg s schedule = Some s' -> panicked s' = true ->
  pool_size cfg = 0%nat.
Proof.
  revert s. induction schedule as [|e schedule IH]; intros s Hinv Hs; simpl.
  - intros [= <-]. congruence.
  - destruct (step cfg s e) as [s1|] eqn:Hstep; [|done].
    destruct (panicked s1) eqn:Hp1.
    + intros _ _. pose proof (panicked_step _ _ _ _ Hstep Hp1) as He.
      by destruct (send_on_closed_only_main _ _ _ _ Hinv Hstep He).
    + apply IH; [by eapply shutdown_inv_step|done].
Qed.

Section ResultInvariant.

Variable cfg : Config.
Variable Q : Client -> Prop.
Variable R : Result -> Prop.
Hypothesis probe_R :
  forall net q url code res,
    Q net -> probe cfg net q url = (code, Some res) -> R res.

Lemma results_all_init lines : results_all R (init cfg lines).
Proof.
  split; [|split]; simpl.
  - exists []. by split.
  - by apply Forall_replicate.
  - by apply Forall_replicate.
Qed.

Lemma collect_all (m : gmap Z (list Result)) (res : Result) :
  (exists arrived, m = aggregate arrived /\ Forall R arrived) ->
  R res ->
  exists arrived, collect m res = aggregate arrived /\ Forall R arrived.
Proof.
  intros (arrived & -> & Hall) Hres. exists (arrived ++ [res]). split.
  - unfold aggregate. by rewrite foldl_snoc.
  - apply Forall_app. split; [done|]. by repeat constructor.
Qed.

Lemma holding_lookup (ws : list Worker) (i : nat) (url : string) (res : Result) :
  Forall (holding R) ws -> ws !! i = Some (Emitting url res) -> R res.
Proof. intros H Hi. exact (Forall_lookup_1 _ _ _ _ H Hi). Qed.

Lemma results_all_step s e s' :
  clients_satisfy Q e -> results_all R s -> step cfg s e = Some s' ->
  results_all R s'.
Proof.
  intros HQ (Hres & Hhttps & Hhttp) H.
  destruct s. simpl in *. unfold step in H. simpl in H.
  destruct e; simpl in H;
    repeat (case_match; simplify_eq; try discriminate);
    try (destruct q; simpl in * );
    repeat match goal with
    | Hp : probe _ _ _ _ = (_, Some _) |- _ => apply (probe_R _ _ _ _ _ HQ) in Hp
    | Hw : Forall (holding R) ?ws, Hi : ?ws !! _ = Some (Emitting _ _) |- _ =>
        pose proof (holding_lookup _ _ _ _ Hw Hi); clear Hi
    end;
    (split; [|split]); simpl; try done;
    try (apply Forall_insert; done);
    try (by apply collect_all).
Qed.

Lemma results_all_run schedule s s' :
  Forall (clients_satisfy Q) schedule -> results_all R s ->
  run cfg s schedule = Some s' -> results_all R s'.
Proof.
  intros HQ. revert s. induction HQ as [|e schedule He _ IH]; intros s Hs; simpl.
  - by intros [= <-].
  - destruct (step cfg s e) as [s1|] eqn:Hstep; [|done].
    apply IH. by eapply results_all_step.
Qed.

End ResultInvariant.

Lemma probe_found cfg net q url code res :
  probe cfg net q url = (code, Some res) ->
  code <> 0 /\ StatusCode res = code /\
  (RedirectedURL res <> "" -> 300 <= code < 400) /\
  (nonneg_client net -> 0 < code).
Proof.
  unfold probe.
  destruct (getStatusAndRedirect net _ (method cfg)) as [statusCode redirectedURL] eqn:Hget.
  destruct (statusCode =? 0) eqn:Hz; simpl; [done|].
  apply Z.eqb_neq in Hz. intros [= <- <-]. simpl.
  split; [done|]. split; [done|]. split.
  - by eapply getStatusAndRedirect_redirect.
  - intros Hnet.
    destruct (getStatusAndRedirect_response _ _ _ _ _ Hget Hz)
      as (req & resp & _ & Hdo & -> & _).
    apply Hnet in Hdo. lia.
Qed.

Lemma probe_none cfg net q url code :
  probe cfg net q url = (code, None) -> code = 0.
Proof.
  unfold probe.
  destruct (getStatusAndRedirect net _ (method cfg)) as [statusCode redirectedURL].
  destruct (statusCode =? 0) eqn:Hz; simpl; [|done].
  apply Z.eqb_eq in Hz. by intros [= <-].
Qed.

Lemma all_clients schedule : Forall (clients_satisfy (fun _ => True)) schedule.
Proof. apply List.Forall_forall. intros e _. by destruct e. Qed.

(** What is stored under a status code: a non-empty list of results
    with this code, each satisfying the invariant property. *)
Lemma results_all_lookup (R : Result -> Prop) s code found :
  results_all R s -> results s !! code = Some found ->
  found <> [] /\ Forall (fun res => StatusCode res = code /\ R res) found.
Proof.
  intros ((arrived & Hagg & Hall) & _ & _). rewrite Hagg, aggregate_lookup.
  destruct (with_code code arrived) as [|r rest] eqn:Hf; [done|].
  intros [= <-]. split; [done|]. rewrite <- Hf.
  apply List.Forall_forall. intros res Hin%list_elem_of_In.
  apply list_elem_of_filter in Hin as [Hcode Hin].
  split; [done|]. apply (proj1 (List.Forall_forall _ _) Hall).
  by apply list_elem_of_In.
Qed.

(** ** Conservation of targets and results *)

Lemma msum_snoc {A B : Type} `{Countable B} (f : A -> gmultiset B) (l : list A) (x : A) :
  msum f (l ++ [x]) = msum f l ⊎ f x.
Proof. induction l as [|y l IH]; simpl; [multiset_solver|]. rewrite IH. multiset_solver. Qed.

Lemma msum_insert {A B : Type} `{Countable B} (f : A -> gmultiset B) (l : list A) (i : nat) (x y : A) :
  l !! i = Some x ->
  msum f (<[i := y]> l) ⊎ f x = msum f l ⊎ f y.
Proof.
  revert i. induction l as [|z l IH]; intros [|i] Hi; simpl in *; try done.
  - injection Hi as ->. multiset_solver.
  - specialize (IH _ Hi). multiset_solver.
Qed.

Lemma msum_replicate {A B : Type} `{Countable B} (f : A -> gmultiset B) (n : nat) (x : A) :
  f x = ∅ -> msum f (replicate n x) = ∅.
Proof. intros Hx. induction n as [|n IH]; simpl; [done|]. rewrite Hx, IH. multiset_solver. Qed.

Lemma conservation_init cfg lines : conservation cfg lines (init cfg lines).
Proof.
  constructor; simpl.
  - exists []. split; [done|]. simpl. rewrite !msum_replicate by done. multiset_solver.
  - rewrite !msum_replicate by done. unfold probed_on. simpl. multiset_solver.
  - rewrite !msum_replicate by done. unfold probed_on, handed_on. simpl. multiset_solver.
Qed.

Ltac use_insert :=
  repeat match goal with
  | Hi : ?ws !! ?i = Some ?w |- context [msum ?f (<[?i := ?w']> ?ws)] =>
      let E := fresh "E" in
      pose proof (msum_insert f ws i w w' Hi) as E; simpl in E;
      generalize dependent (msum f (<[i := w']> ws)); intros
  end.

Lemma aggregate_snoc arrived res :
  collect (aggregate arrived) res = aggregate (arrived ++ [res]).
Proof. unfold aggregate. by rewrite foldl_snoc. Qed.

Lemma list_to_set_disj_snoc (arrived : list Result) (res : Result) :
  list_to_set_disj (arrived ++ [res]) =@{gmultiset Result}
  list_to_set_disj arrived ⊎ {[+ res +]}.
Proof. rewrite list_to_set_disj_app. simpl. multiset_solver. Qed.




(** Equations between multisets, read as equations between the
    multiplicities of an arbitrary element. *)
Ltac multiset_lia :=
  let x := fresh "x" in
  apply gmultiset_eq; intros x;
  repeat match goal with
  | H : _ = _ |- _ => apply (f_equal (multiplicity x)) in H
  end;
  rewrite ?multiplicity_disj_union, ?multiplicity_empty in *;
  lia.

Lemma conservation_step cfg lines s e s' :
  conservation cfg lines s -> step cfg s e = Some s' -> conservation cfg lines s'.
Proof.
  intros [(arrived & Hagg & Hres) Hhttps Hhttp] H.
  destruct s. simpl in *. unfold step in H. simpl in H.
  destruct (preferHTTPS cfg) eqn:Hprefer.
  all: destruct e; simpl in H;
    repeat (case_match; simplify_eq; try discriminate);
    try (destruct q; simpl in * ).
  all: constructor; simpl.
  all: try (eexists; split; [first [apply aggregate_snoc | reflexivity]|]).
  all: unfold probed_on, found_in, handed_on, pending_on, sends_on in *; simpl in *.
  all: rewrite ?list_to_set_disj_snoc, ?msum_snoc, ?Hprefer; simpl.
  all: use_insert.
  all: rewrite ?Hprefer in *.
  all: try done.
  all: try multiset_lia.
Qed.

Lemma conservation_run cfg lines schedule s s' :
  conservation cfg lines s -> run cfg s schedule = Some s' ->
  conservation cfg lines s'.
Proof. apply run_invariant. intros s0 e s1. apply conservation_step. Qed.

(** ** Every state of every run *)

Lemma reachable_shutdown_inv cfg lines s :
  reachable cfg lines s -> shutdown_inv cfg s.
Proof.
  intros (schedule & Hrun).
  eapply shutdown_inv_run; [apply shutdown_inv_init|done].
Qed.

Lemma reachable_conservation cfg lines s :
  reachable cfg lines s -> conservation cfg lines s.
Proof.
  intros (schedule & Hrun).
  eapply conservation_run; [apply conservation_init|done].
Qed.

Lemma reachable_sound_results cfg lines s :
  reachable cfg lines s -> results_all sound_result s.
Proof.
  intros (schedule & Hrun).
  eapply (results_all_run cfg (fun _ => True)); [|apply all_clients| |done].
  - intros net q url code res _ Hp.
    destruct (probe_found _ _ _ _ _ _ Hp) as (Hne & Hc & Hred & _).
    unfold sound_result. rewrite Hc. by split.
  - by apply results_all_init.
Qed.

Lemma msum_all_finished {B : Type} `{Countable B} (f : Worker -> gmultiset B) ws :
  f Finished = ∅ -> running ws = 0 -> msum f ws = ∅.
Proof.
  intros Hf Hws%running_zero.
  induction Hws as [|w ws -> _ IH]; simpl; [done|].
  rewrite Hf, IH. multiset_lia.
Qed.

(** With a worker in each pool, the output channel is closed only after
    the input loop. *)
Lemma output_closed_past_loop cfg s pending :
  shutdown_inv cfg s -> (1 <= pool_size cfg)%nat ->
  output_closed s = true -> main s <> Expanding pending.
Proof.
  intros Hinv Hpool Hout Hmain.
  destruct (output_closed_all_done _ _ Hinv Hout) as [_ Hhttps].
  destruct Hinv as [_ _ Hlen1 _ Hopen1 _ _ _ Hloop _ _].
  specialize (Hopen1 (Hloop _ Hmain)).
  apply running_none_finished in Hopen1. lia.
Qed.

(** Once the output channel is closed every result and every target is
    accounted for. *)
Lemma output_closed_conservation cfg lines s :
  reachable cfg lines s -> output_closed s = true ->
  (exists arrived,
     results s = aggregate arrived /\
     list_to_set_disj arrived = found_in (attempts s)) /\
  probed_on httpsURLs (attempts s) ⊎ pending_on httpsURLs (main s)
    = sends_on httpsURLs (expand_input (skipDefault cfg) (probes cfg) lines) /\
  probed_on httpURLs (attempts s) ⊎ pending_on httpURLs (main s)
    = sends_on httpURLs (expand_input (skipDefault cfg) (probes cfg) lines)
      ⊎ handed_on cfg (attempts s).
Proof.
  intros Hs Hout.
  pose proof (reachable_shutdown_inv _ _ _ Hs) as Hinv.
  destruct (output_closed_all_done _ _ Hinv Hout) as [Hhttp Hhttps].
  destruct (reachable_conservation _ _ _ Hs)
    as [(arrived & Hagg & Hres) Hsent Hhanded].
  rewrite (msum_all_finished held _ eq_refl Hhttps),
          (msum_all_finished held _ eq_refl Hhttp) in Hres.
  rewrite (msum_all_finished probing _ eq_refl Hhttps) in Hsent.
  rewrite (msum_all_finished probing _ eq_refl Hhttp),
          (msum_all_finished (forwarding cfg) _ eq_refl Hhttps) in Hhanded.
  split; [|split].
  - exists arrived. split; [done|]. multiset_lia.
  - multiset_lia.
  - multiset_lia.
Qed.

(** With [preferHTTPS] set, an HTTPS worker puts on the HTTP queue only
    targets for which its prober call built no result. *)
Lemma forwards_only_failures cfg lines s i url :
  reachable cfg lines s -> preferHTTPS cfg = true ->
  httpsWorkers s !! i = Some (Forwarding url) ->
  In (mkAttempt httpsURLs url 0 None) (attempts s).
Proof.
  intros (schedule & Hrun) Hprefer. revert i url.
  enough (forall s0,
    (forall i url, httpsWorkers s0 !! i = Some (Forwarding url) ->
       In (mkAttempt httpsURLs url 0 None) (attempts s0)) ->
    run cfg s0 schedule = Some s ->
    forall i url, httpsWorkers s !! i = Some (Forwarding url) ->
       In (mkAttempt httpsURLs url 0 None) (attempts s)) as Hgen.
  { apply (Hgen (init cfg lines)); [|done].
    intros i url Hi. simpl in Hi.
    apply lookup_replicate in Hi as [Hi _]. discriminate Hi. }
  clear Hrun. induction schedule as [|e schedule IH]; intros s0 Hs0; simpl.
  { by intros [= <-]. }
  destruct (step cfg s0 e) as [s1|] eqn:Hstep; [|done].
  apply IH. clear IH. intros i url.
  destruct s0. simpl in *. unfold step in Hstep. simpl in Hstep.
  destruct e; simpl in Hstep;
    repeat (case_match; simplify_eq; try discriminate);
    try (destruct q; simpl in * ); simpl; try congruence;
    intros Hi;
    try (apply list_lookup_insert_Some in Hi as [(-> & Hw & _)|(_ & Hi)];
         simplify_eq);
    try (by eapply Hs0);
    try (apply in_or_app; left; by eapply Hs0).
  all: match goal with Hp : probe _ _ _ _ = (_, None) |- _ =>
         apply probe_none in Hp as -> end.
  all: apply in_or_app; right; by left.
Qed.

Lemma probe_attempt cfg net q url code found :
  probe cfg net q url = (code, found) ->
  sound_attempt (mkAttempt q url code found).
Proof.
  unfold probe, sound_attempt. simpl.
  destruct (getStatusAndRedirect net _ (method cfg)) as [statusCode redirectedURL].
  destruct (statusCode =? 0) eqn:Hz; simpl; intros [= <- <-]; simpl.
  - by apply Z.eqb_eq.
  - apply Z.eqb_neq in Hz. by destruct q.
Qed.

(** The log is truthful about every prober call. *)
Lemma attempts_sound cfg lines s :
  reachable cfg lines s -> Forall sound_attempt (attempts s).
Proof.
  intros (schedule & Hrun).
  apply (run_invariant cfg (fun s => Forall sound_attempt (attempts s)))
    with (schedule := schedule) (s := init cfg lines); [|by constructor|done].
  clear. intros s e s' Hs H.
  destruct s. simpl in *. unfold step in H. simpl in H.
  destruct e; simpl in H;
    repeat (case_match; simplify_eq; try discriminate);
    try (destruct q; simpl in * ); simpl; try done.
  all: apply Forall_app; split; [done|]; constructor; [|by constructor].
  all: by eapply probe_attempt.
Qed.

(** The file a finished run has written is the report of the results
    that arrived, and these are the results the prober calls gave rise
    to. *)
Lemma exited_file cfg lines s file :
  reachable cfg lines s -> main s = Exited file ->
  exists io arrived,
    file = writeJSONFile io (aggregate arrived) /\
    results s = aggregate arrived /\
    list_to_set_disj arrived = found_in (attempts s).
Proof.
  intros Hs Hmain.
  pose proof (reachable_shutdown_inv _ _ _ Hs) as Hinv.
  destruct (inv_exited _ _ Hinv _ Hmain) as (Hwg & io & ->).
  pose proof (inv_outputWG _ _ Hinv Hwg) as Hout.
  destruct (output_closed_conservation _ _ _ Hs Hout)
    as ((arrived & Hagg & Hres) & _ & _).
  exists io, arrived. by rewrite Hagg.
Qed.

(** C3: a worker builds a result only from a prober call whose status
    code is not 0, so in every state of every run no result is stored
    under key 0, every stored result lies under its own status code and
    that code is not 0, and so is the code of every result a worker is
    about to send; when the clients only answer with non-negative status
    codes, as [net/http] does, every stored status code is positive. *)
Theorem results_status_nonzero
    (cfg : Config) (lines : list string) (schedule : list Event) (s : State) :
  run cfg (init cfg lines) schedule = Some s ->
  results s !! 0 = None /\
  (forall code found res,
     results s !! code = Some found -> In res found ->
     StatusCode res = code /\ StatusCode res <> 0) /\
  (forall i url res,
     httpsWorkers s !! i = Some (Emitting url res) \/
     httpWorkers s !! i = Some (Emitting url res) ->
     StatusCode res <> 0) /\
  (Forall nonneg_event schedule ->
   forall code found res,
     results s !! code = Some found -> In res found -> 0 < StatusCode res).
Proof.
  intros Hrun.
  assert (results_all sound_result s) as Hall
    by (apply (reachable_sound_results cfg lines); by exists schedule).
  assert (forall code found res,
     results s !! code = Some found -> In res found ->
     StatusCode res = code /\ StatusCode res <> 0) as Hstored.
  { intros code found res Hfound Hin.
    destruct (results_all_lookup _ _ _ _ Hall Hfound) as [_ Hf].
    by destruct (proj1 (List.Forall_forall _ _) Hf _ Hin) as (Hc & Hz & _). }
  split; [|split; [done|split]].
  - destruct (results s !! 0) as [found|] eqn:Hzero; [|done].
    destruct (results_all_lookup _ _ _ _ Hall Hzero) as [Hne _].
    destruct found as [|res found]; [done|].
    by destruct (Hstored 0 (res :: found) res Hzero (or_introl eq_refl)).
  - destruct Hall as (_ & Hhttps & Hhttp).
    intros i url res [Hi|Hi].
    + by destruct (holding_lookup _ _ _ _ _ Hhttps Hi).
    + by destruct (holding_lookup _ _ _ _ _ Hhttp Hi).
  - intros Hnonneg code found res Hfound Hin.
    assert (results_all (fun res => 0 < StatusCode res) s) as Hpos.
    { eapply (results_all_run cfg nonneg_client); [|done|apply results_all_init|done].
      intros net q url c r Hnet Hp.
      destruct (probe_found _ _ _ _ _ _ Hp) as (_ & -> & _ & Hc). by apply Hc. }
    destruct (results_all_lookup _ _ _ _ Hpos Hfound) as [_ Hf].
    by destruct (proj1 (List.Forall_forall _ _) Hf _ Hin).
Qed.

(** C2, amended: the prober returns a non-empty redirect string only
    with a status code in [300,400), and for a status code in [300,400)
    the string is the [Location] header of the response, which may be
    empty; so every result delivered to the output worker with a
    non-empty [RedirectedURL] has its [StatusCode] in [300,400). *)
Theorem redirect_only_for_3xx :
  (forall client url method statusCode redirectedURL,
     getStatusAndRedirect client url method = (statusCode, redirectedURL) ->
     (redirectedURL <> "" -> 300 <= statusCode < 400) /\
     (300 <= statusCode < 400 ->
      exists req resp,
        NewRequest client method url = Some req /\
        Do client (connection_close req) = DoResponse resp /\
        redirectedURL = Header_Get (resp_Header resp) "Location")) /\
  (forall cfg lines s code found res,
     reachable cfg lines s ->
     results s !! code = Some found -> In res found ->
     RedirectedURL res <> "" -> 300 <= StatusCode res < 400).
Proof.
  split.
  - intros client url method statusCode redirectedURL Hget. split.
    + by eapply getStatusAndRedirect_redirect.
    + intros Hrange.
      destruct (getStatusAndRedirect_response _ _ _ _ _ Hget ltac:(lia))
        as (req & resp & Hreq & Hdo & Hcode & Hred).
      exists req, resp. split; [done|]. split; [done|].
      destruct Hrange as [Hlo%Z.leb_le Hhi%Z.ltb_lt].
      by rewrite Hlo, Hhi in Hred.
  - intros cfg lines s code found res Hs Hfound Hin.
    pose proof (reachable_sound_results _ _ _ Hs) as Hall.
    destruct (results_all_lookup _ _ _ _ Hall Hfound) as [_ Hf].
    by destruct (proj1 (List.Forall_forall _ _) Hf _ Hin) as (_ & _ & Hred).
Qed.

(** C4, amended: in every state of every run, [httpURLs] is closed only
    when every HTTPS worker has finished and [output] only when every
    HTTP worker has; an HTTPS worker about to forward finds [httpURLs]
    open and a worker about to emit finds [output] open, so no worker
    ever sends on a closed channel; once [output] is closed the stored
    results are exactly the results the prober calls gave rise to, and
    the targets probed over HTTP together with those still ahead in the
    input loop are exactly the HTTP targets of the input and the targets
    handed on by the HTTPS stage; and with [concurrency] at least 2 no
    send on a closed channel occurs at all and nothing is left ahead in
    the input loop when [output] is closed. *)
Theorem shutdown_order
    (cfg : Config) (lines : list string) (schedule : list Event) (s : State) :
  run cfg (init cfg lines) schedule = Some s ->
  (httpURLs_closed s = true -> Forall (fun w => w = Finished) (httpsWorkers s)) /\
  (output_closed s = true -> Forall (fun w => w = Finished) (httpWorkers s)) /\
  (forall i url, httpsWorkers s !! i = Some (Forwarding url) ->
                 httpURLs_closed s = false) /\
  (forall i url res,
     httpsWorkers s !! i = Some (Emitting url res) \/
     httpWorkers s !! i = Some (Emitting url res) ->
     output_closed s = false) /\
  (forall e s', step cfg s e = Some s' -> worker_event e = true ->
                send_on_closed e = false) /\
  (output_closed s = true ->
   (exists arrived,
      results s = aggregate arrived /\
      list_to_set_disj arrived = found_in (attempts s)) /\
   probed_on httpURLs (attempts s) ⊎ pending_on httpURLs (main s)
     = sends_on httpURLs (expand_input (skipDefault cfg) (probes cfg) lines)
       ⊎ handed_on cfg (attempts s)) /\
  (2 <= concurrency cfg ->
   panicked s = false /\
   (forall e s', step cfg s e = Some s' -> send_on_closed e = false) /\
   (output_closed s = true -> pending_on httpURLs (main s) = ∅)).
Proof.
  intros Hrun.
  assert (reachable cfg lines s) as Hs by (by exists schedule).
  pose proof (reachable_shutdown_inv _ _ _ Hs) as Hinv.
  split; [|split; [|split; [|split; [|split; [|split]]]]].
  - intros Hc. apply running_zero.
    destruct Hinv as [Hwg1 _ _ _ _ _ Hclosed1 _ _ _ _].
    rewrite <- Hwg1. by apply Hclosed1.
  - intros Hc. apply running_zero.
    by destruct (output_closed_all_done _ _ Hinv Hc).
  - intros i url Hi. by eapply https_worker_http_open.
  - intros i url res Hi. by eapply worker_output_open.
  - intros e s' Hstep He.
    destruct (send_on_closed e) eqn:Hsend; [|done].
    destruct (send_on_closed_only_main _ _ _ _ Hinv Hstep Hsend) as [-> _].
    discriminate He.
  - intros Hout.
    destruct (output_closed_conservation _ _ _ Hs Hout) as (Hres & _ & Hhttp).
    by split.
  - intros Hc. pose proof (pool_size_pos _ Hc) as Hpool. split; [|split].
    + destruct (panicked s) eqn:Hp; [|done].
      pose proof (panicked_run _ _ _ _ (shutdown_inv_init cfg lines) eq_refl Hrun Hp).
      lia.
    + intros e s' Hstep.
      destruct (send_on_closed e) eqn:Hsend; [|done].
      destruct (send_on_closed_only_main _ _ _ _ Hinv Hstep Hsend) as [_ Hzero].
      lia.
    + intros Hout. destruct (main s) as [pending| |file] eqn:Hmain; try done.
      by destruct (output_closed_past_loop _ _ pending Hinv Hpool Hout).
Qed.

(** C1, at the failing input: with [preferHTTPS] set and no probe
    spec, the input loop puts the host name on [httpURLs] itself, next to
    [httpsURLs]; after the HTTPS probe of [example.com] has produced a
    result with status 200, the HTTP worker probes [example.com] all the
    same. *)
Theorem prefer_https_still_probes_http :
  expand_input (skipDefault cfg_prefer) (probes cfg_prefer) ["example.com"] =
    [(httpsURLs, "example.com"); (httpURLs, "example.com")] /\
  exists s,
    run cfg_prefer (init cfg_prefer ["example.com"])
        (schedule_both (client_answering 200 ∅)) = Some s /\
    results s !! 200 = Some [mkResult "https://example.com" 200 ""] /\
    attempts s =
      [mkAttempt httpsURLs "example.com" 200
         (Some (mkResult "https://example.com" 200 ""));
       mkAttempt httpURLs "example.com" 200
         (Some (mkResult "http://example.com" 200 ""))].
Proof.
  split; [reflexivity|].
  eexists. split; [by vm_compute|]. by vm_compute.
Qed.

(** * Further properties *)

(** ** The flag values *)

Lemma string_append_assoc (a b c : string) : (a +:+ b) +:+ c = a +:+ (b +:+ c).
Proof.
  induction a as [|x a IH]; [done|].
  change (String x (a +:+ b) +:+ c = String x (a +:+ b +:+ c)).
  change (String x ((a +:+ b) +:+ c) = String x (a +:+ b +:+ c)). by rewrite IH.
Qed.

Lemma concat_snoc (sep : string) (l : list string) (x : string) :
  String.concat sep (l ++ [x]) =
    match l with
    | [] => x
    | _ => String.concat sep l +:+ sep +:+ x
    end.
Proof.
  induction l as [|a l IH]; [done|].
  destruct l as [|b l]; [done|].
  change (String.concat sep ((a :: b :: l) ++ [x]))
    with (a +:+ sep +:+ String.concat sep ((b :: l) ++ [x])).
  rewrite IH.
  change (String.concat sep (a :: b :: l))
    with (a +:+ sep +:+ String.concat sep (b :: l)).
  by rewrite !string_append_assoc.
Qed.

(** X1: the values of repeated [-p] flags reach [main] in the order
    given: each [Set] lengthens the list by one, puts its value last and
    leaves the earlier values in place; [String] shows the values joined
    by commas. *)
Theorem probeArgs_accumulate (values : list string) (p : list string) (val : string) :
  parse_probes values = values /\
  length (probeArgs_Set p val) = S (length p) /\
  probeArgs_Set p val !! length p = Some val /\
  (forall i, (i < length p)%nat -> probeArgs_Set p val !! i = p !! i) /\
  probeArgs_String (probeArgs_Set p val) =
    match p with
    | [] => val
    | _ => probeArgs_String p +:+ "," +:+ val
    end.
Proof.
  split; [|split; [|split; [|split]]].
  - unfold parse_probes.
    enough (forall acc, foldl probeArgs_Set acc values = acc ++ values) as H
      by apply H.
    induction values as [|v values IH]; intros acc; simpl.
    + by rewrite app_nil_r.
    + rewrite IH. unfold probeArgs_Set. by rewrite <- app_assoc.
  - unfold probeArgs_Set. rewrite length_app. simpl. lia.
  - unfold probeArgs_Set. by rewrite list_lookup_middle.
  - intros i Hi. unfold probeArgs_Set. by rewrite lookup_app_l.
  - apply concat_snoc.
Qed.

Lemma wrap_range (bits x : Z) :
  0 < bits -> - 2 ^ (bits - 1) <= wrap bits x < 2 ^ (bits - 1).
Proof.
  intros Hb. unfold wrap.
  assert (2 ^ bits = 2 * 2 ^ (bits - 1)) as Hpow.
  { rewrite <- Z.pow_succ_r by lia. f_equal. lia. }
  assert (0 < 2 ^ (bits - 1)) by (apply Z.pow_pos_nonneg; lia).
  pose proof (Z.mod_pos_bound (x + 2 ^ (bits - 1)) (2 ^ bits)). lia.
Qed.

Lemma wrap_exact_iff (bits x : Z) :
  0 < bits -> wrap bits x = x <-> - 2 ^ (bits - 1) <= x < 2 ^ (bits - 1).
Proof.
  intros Hb. split.
  - intros <-. by apply wrap_range.
  - intros Hx. unfold wrap.
    assert (2 ^ bits = 2 * 2 ^ (bits - 1)) as Hpow.
    { rewrite <- Z.pow_succ_r by lia. f_equal. lia. }
    rewrite Z.mod_small by lia. lia.
Qed.

(** X2: the timeout passed to the client is the [-t] value in
    milliseconds exactly when the product [to * 1000000] fits the
    platform's [int]; otherwise it is the wrapped product, still within
    the range of [int]. *)
Theorem timeout_exact_iff (bits to : Z) :
  bits = 32 \/ bits = 64 ->
  (timeout bits to = to * 1000000 <->
   - 2 ^ (bits - 1) <= to * 1000000 < 2 ^ (bits - 1)) /\
  - 2 ^ (bits - 1) <= timeout bits to < 2 ^ (bits - 1).
Proof.
  intros Hbits.
  assert (0 < bits) as Hb by lia.
  pose proof (wrap_range bits (to * 1000000) Hb) as Hr.
  assert (timeout bits to = wrap bits (to * 1000000)) as Ht.
  { unfold timeout. apply wrap_exact_iff; [lia|].
    destruct Hbits as [-> | ->]; simpl in *; lia. }
  rewrite Ht. split; [|done]. by apply wrap_exact_iff.
Qed.

(** X3: each pool gets [concurrency/2] workers: none when
    [concurrency] is at most 1, and for a non-negative [concurrency] the
    two pools together hold [concurrency] workers or one fewer. *)
Theorem pool_size_split (cfg : Config) :
  (concurrency cfg <= 1 <-> pool_size cfg = 0%nat) /\
  (0 <= concurrency cfg ->
   concurrency cfg - 1 <= 2 * Z.of_nat (pool_size cfg) <= concurrency cfg) /\
  length (httpsWorkers (init cfg [])) = pool_size cfg /\
  length (httpWorkers (init cfg [])) = pool_size cfg.
Proof.
  unfold pool_size. split; [|split; [|split]].
  - destruct (decide (0 <= concurrency cfg)) as [Hnn|Hneg].
    + rewrite Z.quot_div_nonneg by lia.
      pose proof (Z.div_mod (concurrency cfg) 2 ltac:(lia)).
      pose proof (Z.mod_pos_bound (concurrency cfg) 2 ltac:(lia)). lia.
    + assert (concurrency cfg ÷ 2 <= 0).
      { apply Z.quot_le_upper_bound; lia. }
      lia.
  - intros Hnn. rewrite Z.quot_div_nonneg by lia.
    pose proof (Z.div_mod (concurrency cfg) 2 ltac:(lia)).
    pose proof (Z.mod_pos_bound (concurrency cfg) 2 ltac:(lia)). lia.
  - simpl. by rewrite length_replicate.
  - simpl. by rewrite length_replicate.
Qed.

(** ** The prober, both ways *)

(** X4: the prober returns status 0 exactly when the request cannot be
    built, the transport fails, or the response itself carries status
    code 0; with a response it returns the response's own status code,
    and the [Location] header for a code in [300,400); a worker builds a
    result exactly when the prober's status is not 0. *)
Theorem prober_sentinel_iff (client : Client) (url verb : string) :
  (fst (getStatusAndRedirect client url verb) = 0 <->
   NewRequest client verb url = None \/
   (exists req,
      NewRequest client verb url = Some req /\
      ((exists resp, Do client (connection_close req) = DoError resp) \/
       (exists resp, Do client (connection_close req) = DoResponse resp /\
                     resp_StatusCode resp = 0)))) /\
  (forall req resp,
     NewRequest client verb url = Some req ->
     Do client (connection_close req) = DoResponse resp ->
     getStatusAndRedirect client url verb =
       (resp_StatusCode resp,
        if (300 <=? resp_StatusCode resp) && (resp_StatusCode resp <? 400)
        then Header_Get (resp_Header resp) "Location" else "")) /\
  (forall cfg q,
     snd (probe cfg client q url) = None <->
     fst (getStatusAndRedirect client (scheme q +:+ url) (method cfg)) = 0).
Proof.
  split; [|split].
  - unfold getStatusAndRedirect.
    destruct (NewRequest client verb url) as [req|] eqn:Hreq; simpl.
    + destruct (Do client (connection_close req)) as [resp|resp] eqn:Hdo; simpl.
      * split.
        -- intros Hz. right. exists req. split; [done|]. right. by exists resp.
        -- intros [H|(req' & Heq & Hcases)]; [done|].
           injection Heq as <-.
           destruct Hcases as [(r & Hr)|(r & Hr & Hz)]; rewrite Hdo in Hr; [done|].
           by injection Hr as <-.
      * split; [|done]. intros _. right. exists req. split; [done|].
        left. by exists resp.
    + split; [|done]. intros _. by left.
  - intros req resp Hreq Hdo. unfold getStatusAndRedirect. by rewrite Hreq, Hdo.
  - intros cfg q. unfold probe.
    destruct (getStatusAndRedirect client (scheme q +:+ url) (method cfg))
      as [statusCode redirectedURL]. simpl.
    destruct (statusCode =? 0) eqn:Hz; simpl.
    + apply Z.eqb_eq in Hz. by split.
    + apply Z.eqb_neq in Hz. by split.
Qed.

(** ** The expander, spec by spec *)

Lemma cut_Some (sep : ascii) (s before after : string) :
  cut sep s = Some (before, after) ->
  s = before +:+ String sep after /\ contains sep before = false.
Proof.
  revert before. induction s as [|c s IH]; intros before; simpl; [done|].
  destruct (Ascii.eqb c sep) eqn:Hc.
  - intros [= <- <-]. apply Ascii.eqb_eq in Hc as ->. by split.
  - destruct (cut sep s) as [[b a]|]; [|done].
    intros [= <- <-]. destruct (IH b eq_refl) as [-> Hb].
    split; [done|]. simpl. by rewrite Hc.
Qed.

Lemma cut_is_Some (sep : ascii) (s : string) :
  contains sep s = true -> is_Some (cut sep s).
Proof.
  induction s as [|c s IH]; simpl; [done|].
  destruct (Ascii.eqb c sep); simpl; [by eexists|].
  intros [[b a] ->]%IH. by eexists.
Qed.

Lemma expand_ports_length (domain : string) (ports : list string) :
  length (expand_ports domain ports) = (2 * length ports)%nat.
Proof.
  unfold expand_ports. induction ports as [|p ports IH]; simpl; [done|].
  rewrite IH. lia.
Qed.

(** A spec with a colon that is no template name is cut at its first
    colon and gives one send. *)
Lemma expand_probe_with_colon (domain p : string) :
  contains ":" p = true ->
  exists proto port,
    p = proto +:+ ":" +:+ port /\ contains ":" proto = false /\
    expand_probe domain p =
      [(if String.eqb (ToLower proto) "https" then httpsURLs else httpURLs,
        domain +:+ ":" +:+ port)].
Proof.
  intros Hc.
  destruct (cut_is_Some _ _ Hc) as [[proto port] Hcut].
  destruct (cut_Some _ _ _ _ Hcut) as [-> Hproto].
  exists proto, port. split; [done|]. split; [done|].
  change (proto +:+ String ":" port) with (proto +:+ ":" +:+ port).
  rewrite (expand_probe_explicit _ _ _ Hproto).
  by destruct (String.eqb (ToLower proto) "https").
Qed.

Lemma expand_probe_length (domain p : string) :
  length (expand_probe domain p) =
    if String.eqb p "xlarge" then 140%nat
    else if String.eqb p "large" then 30%nat
    else if contains ":" p then 1%nat else 0%nat.
Proof.
  destruct (String.eqb p "xlarge") eqn:Hx.
  { apply String.eqb_eq in Hx as ->.
    change (expand_probe domain "xlarge") with (expand_ports domain xlarge).
    by rewrite expand_ports_length. }
  destruct (String.eqb p "large") eqn:Hl.
  { apply String.eqb_eq in Hl as ->.
    change (expand_probe domain "large") with (expand_ports domain large).
    by rewrite expand_ports_length. }
  apply String.eqb_neq in Hx, Hl.
  destruct (contains ":" p) eqn:Hc.
  - destruct (expand_probe_with_colon domain p Hc) as (proto & port & _ & _ & ->). done.
  - by rewrite expand_probe_malformed.
Qed.

(** X5: what one probe spec expands to: a template name gives its port
    list on both queues; any other spec with a colon is cut at its first
    colon and gives exactly one send, whatever follows the colon being
    the port part; any other spec gives nothing.  So a spec contributes
    140, 30, 1 or 0 sends. *)
Theorem expand_probe_cases (domain p : string) :
  (p = "xlarge" -> expand_probe domain p = expand_ports domain xlarge) /\
  (p = "large" -> expand_probe domain p = expand_ports domain large) /\
  (p <> "xlarge" -> p <> "large" -> contains ":" p = true ->
   exists proto port,
     p = proto +:+ ":" +:+ port /\ contains ":" proto = false /\
     expand_probe domain p =
       [(if String.eqb (ToLower proto) "https" then httpsURLs else httpURLs,
         domain +:+ ":" +:+ port)]) /\
  (p <> "xlarge" -> p <> "large" -> contains ":" p = false ->
   expand_probe domain p = []) /\
  length (expand_probe domain p) =
    if String.eqb p "xlarge" then 140%nat
    else if String.eqb p "large" then 30%nat
    else if contains ":" p then 1%nat else 0%nat.
Proof.
  split; [by intros ->|]. split; [by intros ->|].
  split; [intros _ _; apply expand_probe_with_colon|].
  split; [intros Hx Hl Hc; by apply expand_probe_malformed|].
  apply expand_probe_length.
Qed.

(** X6: probe specs are expanded one after the other without removing
    duplicates: the sends of two non-empty spec lists in a row are the
    sends of the first followed by those of the second, so repeating a
    list doubles the sends. *)
Theorem expand_appends (skip : bool) (first second : list string) (domain : string) :
  first <> [] -> second <> [] ->
  expand skip (first ++ second) domain =
    expand skip first domain ++ expand skip second domain /\
  length (expand skip (first ++ first) domain) =
    (2 * length (expand skip first domain))%nat.
Proof.
  intros Hf Hs.
  assert (forall a b, a <> [] -> b <> [] ->
            expand skip (a ++ b) domain = expand skip a domain ++ expand skip b domain)
    as Happ.
  { intros a b Ha Hb.
    rewrite !expand_with_probes; [by rewrite flat_map_app|done|done|].
    by destruct a. }
  split; [by apply Happ|].
  rewrite Happ by done. rewrite length_app. lia.
Qed.

Lemma expand_probe_length_domain (domain domain' p : string) :
  length (expand_probe domain p) = length (expand_probe domain' p).
Proof.
  by rewrite !expand_probe_length.
Qed.

Lemma expand_length_domain (skip : bool) (probes : list string) (domain domain' : string) :
  length (expand skip probes domain) = length (expand skip probes domain').
Proof.
  unfold expand. destruct (negb skip && (length probes =? 0)%nat); [done|].
  induction probes as [|p probes IH]; simpl; [done|].
  rewrite !length_app, IH. f_equal. apply expand_probe_length_domain.
Qed.

Lemma lower_ascii_same (c : ascii) :
  same_letter (lower_ascii c) c = true /\ is_capital (lower_ascii c) = false.
Proof. by destruct c as [[] [] [] [] [] [] [] []]. Qed.

Lemma lower_bytes_lowered (s : string) :
  same_ignoring_case (lower_bytes s) s = true /\ has_capital (lower_bytes s) = false.
Proof.
  induction s as [|c s [IH1 IH2]]; [done|].
  destruct (lower_ascii_same c) as [Hsame Hcap].
  simpl. by rewrite Hsame, Hcap, IH1, IH2.
Qed.

(** X7: every input line gets the same number of sends; every target
    sent is the lowered text of an input line, alone or followed by a
    colon and a port part, where the lowered text of an ASCII line is
    the line with its capital letters made small; the sends of an input
    are those of its first lines followed by those of the rest. *)
Theorem expand_input_sends (skip : bool) (probes : list string) (lines : list string) :
  length (expand_input skip probes lines) =
    (length lines * length (expand skip probes ""))%nat /\
  (forall q target,
     In (q, target) (expand_input skip probes lines) ->
     exists line,
       In line lines /\
       (target = ToLower line \/
        exists rest, target = ToLower line +:+ ":" +:+ rest) /\
       (isASCII line = true ->
        same_ignoring_case (ToLower line) line = true /\
        has_capital (ToLower line) = false)) /\
  (forall before after,
     expand_input skip probes (before ++ after) =
       expand_input skip probes before ++ expand_input skip probes after).
Proof.
  split; [|split].
  - unfold expand_input. induction lines as [|line lines IH]; simpl; [done|].
    rewrite length_app, IH. f_equal. apply expand_length_domain.
  - intros q target Hin. unfold expand_input in Hin.
    apply in_flat_map in Hin as (line & Hline & Hin).
    exists line. split; [done|]. split.
    + unfold expand in Hin.
      destruct (negb skip && (length probes =? 0)%nat).
      * left. simpl in Hin. destruct Hin as [H|[H|[]]]; by inversion H.
      * right. apply in_flat_map in Hin as (p & _ & Hin).
        by apply expand_probe_target in Hin.
    + intros Hascii. rewrite (ToLower_ascii _ Hascii).
      apply lower_bytes_lowered.
  - intros before after. unfold expand_input. apply flat_map_app.
Qed.

Lemma queue_targets_expand_ports (q : Queue) (domain : string) (ports : list string) :
  queue_targets q (expand_ports domain ports) = map (Sprintf_s_colon_s domain) ports.
Proof.
  unfold queue_targets, expand_ports.
  induction ports as [|p ports IH]; [done|].
  simpl flat_map. simpl map. rewrite <- IH.
  rewrite !filter_cons. destruct q; simpl; repeat case_decide; by simplify_eq/=.
Qed.

(** X8: a port template puts the same targets on both queues, one per
    port in the order of the list, without repeating a target. *)
Theorem template_on_both_queues (domain p : string) :
  p = "large" \/ p = "xlarge" ->
  queue_targets httpsURLs (expand_probe domain p) =
    queue_targets httpURLs (expand_probe domain p) /\
  queue_targets httpsURLs (expand_probe domain p) =
    map (Sprintf_s_colon_s domain) (if String.eqb p "large" then large else xlarge) /\
  NoDup (queue_targets httpsURLs (expand_probe domain p)).
Proof.
  assert (NoDup large /\ NoDup xlarge) as [Hl Hx].
  { split; apply (bool_decide_unpack _); by vm_compute. }
  assert (forall ports, NoDup ports -> NoDup (map (Sprintf_s_colon_s domain) ports)) as Hnd.
  { intros ports Hp. induction Hp as [|port ports Hnotin Hp IH]; simpl.
    - constructor.
    - constructor; [|done]. intros Hin. apply Hnotin.
      apply list_elem_of_In, in_map_iff in Hin as (port' & Heq & Hin').
      unfold Sprintf_s_colon_s in Heq. apply append_inj_l in Heq.
      cbv [String.append] in Heq. injection Heq as ->.
      by apply list_elem_of_In. }
  intros [-> | ->].
  - change (expand_probe domain "large") with (expand_ports domain large).
    rewrite !queue_targets_expand_ports. auto.
  - change (expand_probe domain "xlarge") with (expand_ports domain xlarge).
    rewrite !queue_targets_expand_ports. auto.
Qed.

(** ** Aggregation, counted *)

Lemma stored_insert (results : gmap Z (list Result)) (code : Z) (found : list Result) :
  stored (<[code := found]> results) =
    (length found + stored (delete code results))%nat.
Proof.
  unfold stored. rewrite <- insert_delete_eq.
  rewrite map_fold_insert_L; [done| |by rewrite lookup_delete_eq].
  intros. lia.
Qed.

Lemma stored_delete (results : gmap Z (list Result)) (code : Z) (found : list Result) :
  results !! code = Some found ->
  stored results = (length found + stored (delete code results))%nat.
Proof.
  intros H. rewrite <- (insert_id results code found H) at 1.
  apply stored_insert.
Qed.

Lemma stored_collect (results : gmap Z (list Result)) (res : Result) :
  stored (collect results res) = S (stored results).
Proof.
  unfold collect. rewrite stored_insert, length_app. simpl.
  destruct (results !! StatusCode res) as [found|] eqn:Hf; simpl.
  - rewrite (stored_delete _ _ _ Hf). lia.
  - by rewrite delete_id.
Qed.

(** X9: the output worker's map holds, under each status code, exactly
    the results that arrived with this code, in arrival order, and has no
    key for a code that did not arrive; it holds as many results as
    arrived; a further result is added by one [collect]. *)
Theorem aggregate_partitions (arrived : list Result) :
  (forall code found,
     aggregate arrived !! code = Some found <->
     found = with_code code arrived /\ found <> []) /\
  (forall code, aggregate arrived !! code = None <->
                forall res, In res arrived -> StatusCode res <> code) /\
  stored (aggregate arrived) = length arrived /\
  (forall res, aggregate (arrived ++ [res]) = collect (aggregate arrived) res).
Proof.
  split; [|split; [|split]].
  - intros code found. rewrite aggregate_lookup.
    destruct (with_code code arrived) as [|r rest]; split.
    + done.
    + by intros [-> ?].
    + by intros [= <-].
    + by intros [-> _].
  - intros code. rewrite aggregate_lookup.
    destruct (with_code code arrived) as [|r rest] eqn:Hw; split.
    + intros _ res Hin Hcode.
      pose proof (with_code_nonempty _ _ Hin) as Hne. by rewrite Hcode, Hw in Hne.
    + done.
    + done.
    + intros Hall. exfalso.
      destruct (with_code_In arrived code) as (res & Hin & Hc); [by rewrite Hw|].
      by apply (Hall res).
  - unfold aggregate.
    enough (forall acc, stored (foldl collect acc arrived)
                        = (stored acc + length arrived)%nat) as H.
    { rewrite H. unfold stored. by rewrite map_fold_empty. }
    induction arrived as [|r arrived IH]; intros acc; simpl; [lia|].
    rewrite IH, stored_collect. lia.
  - intros res. unfold aggregate. by rewrite foldl_snoc.
Qed.

(** ** The report of any map *)

Lemma jsonData_size (results : gmap Z (list Result)) :
  size (jsonData results) = size results.
Proof.
  unfold jsonData.
  apply (map_fold_weak_ind (fun (acc : gmap string (list JSON)) (m : gmap Z (list Result)) =>
    size acc = size m /\
    forall code, m !! code = None -> acc !! Sprintf_d code = None)).
  - split; [by rewrite !map_size_empty|]. intros code _. apply lookup_empty.
  - intros i x m acc Hi [IHs IHn]. split.
    + rewrite !map_size_insert_None; [by rewrite IHs|done|by apply IHn].
    + intros code Hcode. destruct (decide (i = code)) as [->|Hne].
      * by rewrite lookup_insert_eq in Hcode.
      * rewrite lookup_insert_ne in Hcode by done.
        rewrite lookup_insert_ne; [by apply IHn|].
        intros Heq. by apply Sprintf_d_inj in Heq.
Qed.

(** X10: [writeJSONFile] on any map: nothing is written when the file
    cannot be created or written; otherwise the document has one key per
    key of the map, each key is the decimal text of its status code and
    reads back as that code, and the value is [null] exactly when the
    list under the code is empty. *)
Theorem report_of_any_map (results : gmap Z (list Result)) :
  writeJSONFile CreateFails results = None /\
  writeJSONFile WriteFails results = None /\
  exists doc,
    writeJSONFile FileWritten results = Some doc /\
    size doc = size results /\
    (forall code,
       doc !! Sprintf_d code =
         (fun found => encode_slice (map (entry code) found)) <$> results !! code) /\
    (forall key value,
       doc !! key = Some value ->
       exists code found,
         results !! code = Some found /\ key = Sprintf_d code /\
         Z.of_int <$> NilZero.int_of_string key = Some code /\
         (value = JNull <-> found = [])).
Proof.
  split; [done|]. split; [done|].
  destruct (jsonData_spec results) as [Hcode Hkey].
  eexists. split; [reflexivity|]. split; [|split].
  - by rewrite map_size_fmap, jsonData_size.
  - intros code. rewrite lookup_fmap, Hcode.
    destruct (results !! code) as [found|]; simpl; [|done].
    by rewrite entries_map.
  - intros key value Hv. rewrite lookup_fmap in Hv.
    destruct (jsonData results !! key) as [items|] eqn:Hitems; [|done].
    injection Hv as <-.
    destruct (Hkey key) as (code & -> & [found Hfound]); [by eexists|].
    exists code, found. split; [done|]. split; [done|]. split.
    + rewrite Sprintf_d_parse. simpl. by rewrite DecimalZ.of_to.
    + rewrite Hcode, Hfound in Hitems. injection Hitems as <-.
      rewrite entries_map. by destruct found.
Qed.

(** ** Termination *)

Lemma wsum_nonneg (f : Worker -> Z) (ws : list Worker) :
  (forall w, 0 <= f w) -> 0 <= wsum f ws.
Proof.
  intros Hf. induction ws as [|w ws IH]; simpl; [lia|].
  specialize (Hf w). lia.
Qed.

Lemma wsum_insert (f : Worker -> Z) (ws : list Worker) (i : nat) (w w' : Worker) :
  ws !! i = Some w ->
  wsum f (<[i := w']> ws) = wsum f ws - f w + f w'.
Proof.
  revert i. induction ws as [|x ws IH]; intros [|i] H; simpl in *; try done.
  - injection H as ->. lia.
  - rewrite (IH _ H). lia.
Qed.

Lemma wsum_replicate (f : Worker -> Z) (n : nat) (w : Worker) :
  wsum f (replicate n w) = Z.of_nat n * f w.
Proof. induction n as [|n IH]; [done|]. simpl replicate. simpl wsum. lia. Qed.

Lemma sends_weight_nonneg (sends : list (Queue * string)) : 0 <= sends_weight sends.
Proof.
  induction sends as [|[q t] sends IH]; simpl; [lia|].
  unfold send_weight. simpl. destruct q; lia.
Qed.

Lemma sends_weight_targets (sends : list (Queue * string)) :
  sends_weight sends =
    6 * Z.of_nat (length (queue_targets httpsURLs sends))
    + 3 * Z.of_nat (length (queue_targets httpURLs sends)).
Proof.
  unfold queue_targets.
  induction sends as [|[q t] sends IH]; [done|].
  simpl sends_weight. rewrite IH, !filter_cons. unfold send_weight.
  destruct q; simpl; repeat case_decide; simplify_eq/=; lia.
Qed.

Lemma steps_left_nonneg (s : State) : 0 <= steps_left s.
Proof.
  unfold steps_left.
  pose proof (wsum_nonneg https_weight (httpsWorkers s)) as H1.
  pose proof (wsum_nonneg http_weight (httpWorkers s)) as H2.
  assert (0 <= main_weight (main s)) as H3.
  { destruct (main s) as [pending| |]; simpl; try lia.
    pose proof (sends_weight_nonneg pending). lia. }
  specialize (H1 ltac:(by intros []; simpl; lia)).
  specialize (H2 ltac:(by intros []; simpl; lia)).
  repeat case_match; lia.
Qed.

Ltac use_wsum :=
  repeat match goal with
  | Hi : ?ws !! ?i = Some ?w |- context [wsum ?f (<[?i := ?w']> ?ws)] =>
      rewrite (wsum_insert f ws i w w' Hi)
  | Hi : ?ws !! ?i = Some ?w, Hj : ?vs !! ?j = Some ?v
    |- context [wsum ?f (<[?i := ?w']> ?ws)] =>
      rewrite (wsum_insert f ws i w w' Hi)
  end.

Lemma step_steps_left (cfg : Config) (s : State) (e : Event) (s' : State) :
  step cfg s e = Some s' -> steps_left s' < steps_left s.
Proof.
  intros H. destruct s. unfold step in H. simpl in H.
  destruct e; simpl in H;
    repeat (case_match; simplify_eq; try discriminate);
    try (destruct q; simpl in * );
    unfold steps_left; simpl; use_wsum; simpl;
    unfold send_weight; simpl;
    repeat match goal with
    | H : (_ =? _) = true |- _ => apply Z.eqb_eq in H
    | H : _ && _ = true |- _ => apply andb_true_iff in H as [? ?]
    | H : negb _ = true |- _ => apply negb_true_iff in H
    end; subst; simpl;
    repeat case_match; try lia.
Qed.

Lemma run_steps_left (cfg : Config) (schedule : list Event) (s s' : State) :
  run cfg s schedule = Some s' ->
  Z.of_nat (length schedule) + steps_left s' <= steps_left s.
Proof.
  revert s. induction schedule as [|e schedule IH]; intros s; simpl.
  - intros [= <-]. lia.
  - destruct (step cfg s e) as [s1|] eqn:Hstep; [|done].
    intros Hrun. specialize (IH _ Hrun).
    pose proof (step_steps_left _ _ _ _ Hstep). lia.
Qed.

(** X11: no run goes on forever: a run takes at most six steps per
    target sent on the HTTPS queue, three per target sent on the HTTP
    queue, two per worker of a pool and six more. *)
Theorem run_length_bounded
    (cfg : Config) (lines : list string) (schedule : list Event) (s : State) :
  run cfg (init cfg lines) schedule = Some s ->
  Z.of_nat (length schedule) <=
    6 * Z.of_nat (length (queue_targets httpsURLs
                            (expand_input (skipDefault cfg) (probes cfg) lines)))
    + 3 * Z.of_nat (length (queue_targets httpURLs
                              (expand_input (skipDefault cfg) (probes cfg) lines)))
    + 2 * Z.of_nat (pool_size cfg) + 6.
Proof.
  intros Hrun. pose proof (run_steps_left _ _ _ _ Hrun) as Hlen.
  pose proof (steps_left_nonneg s) as Hs.
  assert (steps_left (init cfg lines) =
            2 + sends_weight (expand_input (skipDefault cfg) (probes cfg) lines)
            + 2 * Z.of_nat (pool_size cfg) + 4) as Hinit.
  { unfold steps_left. simpl. rewrite !wsum_replicate. simpl. lia. }
  rewrite sends_weight_targets in Hinit. lia.
Qed.

(** ** Progress *)

Lemma first_at_Some (place : Worker -> bool) (ws : list Worker) (i : nat) :
  first_at place ws = Some i -> exists w, ws !! i = Some w /\ place w = true.
Proof.
  unfold first_at. destruct (list_find _ ws) as [[j w]|] eqn:Hf; [|done].
  intros [= <-]. apply list_find_Some in Hf as (Hi & Hw & _). eauto.
Qed.

Lemma first_at_None (place : Worker -> bool) (ws : list Worker) :
  first_at place ws = None -> Forall (fun w => place w = false) ws.
Proof.
  unfold first_at. destruct (list_find _ ws) as [[j w]|] eqn:Hf; [done|].
  intros _. apply list_find_None in Hf.
  eapply List.Forall_impl; [|exact Hf]. intros w Hw. simpl in Hw.
  by destruct (place w).
Qed.

Lemma first_at_is_Some (place : Worker -> bool) (ws : list Worker) (i : nat) (w : Worker) :
  ws !! i = Some w -> place w = true -> is_Some (first_at place ws).
Proof.
  intros Hi Hw. unfold first_at.
  destruct (list_find (fun w => place w = true) ws) as [[j v]|] eqn:Hf; [by eexists|].
  apply list_find_None in Hf.
  pose proof (Forall_lookup_1 _ _ _ _ Hf Hi) as Hn. by destruct Hn.
Qed.

Lemma progress_inv_init cfg lines : progress_inv (init cfg lines).
Proof.
  constructor; simpl.
  - by apply Forall_replicate.
  - intros H. by destruct (H (expand_input (skipDefault cfg) (probes cfg) lines)).
  - by right.
Qed.

Lemma progress_inv_step cfg s e s' :
  progress_inv s -> step cfg s e = Some s' -> progress_inv s'.
Proof.
  intros [Hterm Hpast Hwg] H. destruct s. simpl in *.
  unfold step in H. simpl in H.
  destruct e; simpl in H;
    repeat (case_match; simplify_eq; try discriminate);
    try (destruct q; simpl in * );
    constructor; simpl; try done;
    try (apply Forall_insert; done);
    try (intros Hne; apply Hpast; intros p; congruence);
    try (intros Hne; exfalso; by eapply Hne);
    repeat match goal with
    | H : (_ =? _) = true |- _ => apply Z.eqb_eq in H
    | H : _ && _ = true |- _ => apply andb_true_iff in H as [? ?]
    end; try lia.
Qed.

Lemma reachable_progress_inv cfg lines s :
  reachable cfg lines s -> progress_inv s.
Proof.
  intros (schedule & Hrun).
  apply (run_invariant cfg progress_inv) with (schedule := schedule)
                                              (s := init cfg lines); [|apply progress_inv_init|done].
  intros s0 e s1. apply progress_inv_step.
Qed.

Lemma reachable_not_panicked cfg lines s :
  reachable cfg lines s -> (1 <= pool_size cfg)%nat -> panicked s = false.
Proof.
  intros (schedule & Hrun) Hpool.
  destruct (panicked s) eqn:Hp; [|done].
  pose proof (panicked_run _ _ _ _ (shutdown_inv_init cfg lines) eq_refl Hrun Hp).
  lia.
Qed.

(** A worker that is at none of the other places waits on its queue. *)
Lemma all_receiving (ws : list Worker) :
  Forall (fun w => is_probing w = false) ws ->
  Forall (fun w => is_emitting w = false) ws ->
  Forall (fun w => is_forwarding w = false) ws ->
  Forall (fun w => finished w = false) ws ->
  Forall (fun w => is_receiving w = true) ws.
Proof.
  induction ws as [|w ws IH]; [constructor|].
  intros H1 H2 H3 H4.
  inversion_clear H1. inversion_clear H2. inversion_clear H3. inversion_clear H4.
  constructor; [by destruct w|by apply IH].
Qed.

Lemma all_finished (ws : list Worker) :
  Forall (fun w => is_probing w = false) ws ->
  Forall (fun w => is_emitting w = false) ws ->
  Forall (fun w => is_forwarding w = false) ws ->
  Forall (fun w => is_receiving w = false) ws ->
  running ws = 0.
Proof.
  induction ws as [|w ws IH]; [done|].
  intros H1 H2 H3 H4.
  inversion_clear H1. inversion_clear H2. inversion_clear H3. inversion_clear H4.
  simpl. rewrite IH by done. by destruct w.
Qed.

Lemma first_receiving (ws : list Worker) :
  (1 <= length ws)%nat -> Forall (fun w => is_receiving w = true) ws ->
  exists j, first_at is_receiving ws = Some j /\ ws !! j = Some Receiving.
Proof.
  intros Hlen Hall. destruct ws as [|w ws]; [simpl in Hlen; lia|].
  inversion_clear Hall as [|? ? Hw _].
  destruct (first_at_is_Some is_receiving (w :: ws) 0 w eq_refl Hw) as [j Hj].
  exists j. split; [done|].
  apply first_at_Some in Hj as (v & Hv & Hr). by destruct v.
Qed.

(** The scheduler's choice is a step the state allows. *)
Lemma next_event_step
    (cfg : Config) (lines : list string) (net : Client) (s : State) :
  reachable cfg lines s -> 2 <= concurrency cfg ->
  (forall file, main s <> Exited file) ->
  exists s', step cfg s (next_event net s) = Some s'.
Proof.
  intros Hs Hc Hnexit.
  pose proof (pool_size_pos _ Hc) as Hpool.
  pose proof (reachable_not_panicked _ _ _ Hs Hpool) as Hp.
  pose proof (reachable_shutdown_inv _ _ _ Hs) as Hinv.
  pose proof Hinv
    as [Hwg1 Hwg2 Hlen1 Hlen2 Hopen1 Hopen2 Hclosed1 Hclosed2 Hmain Hout Hexit].
  pose proof (reachable_progress_inv _ _ _ Hs) as [Hterm Hpast Hwg].
  unfold next_event.
  destruct (first_at is_probing (httpWorkers s)) as [j|] eqn:F1.
  { apply first_at_Some in F1 as (w & Hj & Hw). destruct w; try done.
    unfold step. rewrite Hp.
    destruct (main s) as [pending| |file] eqn:Hm; [| |by destruct (Hnexit file)];
      rewrite Hj; destruct (probe cfg net httpURLs url) as [code [res|]]; by eexists. }
  apply first_at_None in F1.
  destruct (first_at is_emitting (httpWorkers s)) as [j|] eqn:F2.
  { apply first_at_Some in F2 as (w & Hj & Hw). destruct w; try done.
    assert (output_closed s = false) as Ho by (eapply worker_output_open; eauto).
    unfold step. rewrite Hp.
    destruct (main s) as [pending| |file] eqn:Hm; [| |by destruct (Hnexit file)];
      rewrite Hj, Ho; by eexists. }
  apply first_at_None in F2.
  destruct (first_at is_probing (httpsWorkers s)) as [i|] eqn:F3.
  { apply first_at_Some in F3 as (w & Hi & Hw). destruct w; try done.
    unfold step. rewrite Hp.
    destruct (main s) as [pending| |file] eqn:Hm; [| |by destruct (Hnexit file)];
      rewrite Hi; destruct (probe cfg net httpsURLs url) as [code [res|]]; by eexists. }
  apply first_at_None in F3.
  destruct (first_at is_emitting (httpsWorkers s)) as [i|] eqn:F4.
  { apply first_at_Some in F4 as (w & Hi & Hw). destruct w; try done.
    assert (output_closed s = false) as Ho by (eapply worker_output_open; eauto).
    unfold step. rewrite Hp.
    destruct (main s) as [pending| |file] eqn:Hm; [| |by destruct (Hnexit file)];
      rewrite Hi, Ho; destruct (preferHTTPS cfg); by eexists. }
  apply first_at_None in F4.
  destruct (first_at is_forwarding (httpsWorkers s)) as [i|] eqn:F5.
  { apply first_at_Some in F5 as (w & Hi & Hw). destruct w; try done.
    assert (httpURLs_closed s = false) as Ho
      by (eapply https_worker_http_open; eauto).
    pose proof (all_receiving _ F1 F2 Hterm (Hopen2 Ho)) as Hrecv.
    destruct (first_receiving (httpWorkers s)) as (j & -> & Hj); [lia|done|].
    unfold step. rewrite Hp.
    destruct (main s) as [pending| |file] eqn:Hm; [| |by destruct (Hnexit file)];
      simpl; rewrite Hi, Hj, Ho; by eexists. }
  apply first_at_None in F5.
  destruct (main s) as [[|[q url] rest]| |file] eqn:Hm.
  - unfold step. rewrite Hp, Hm. by eexists.
  - pose proof (Hmain _ eq_refl) as Hhttps.
    pose proof (Hopen1 Hhttps) as Hnone.
    pose proof (all_receiving _ F3 F4 F5 Hnone) as Hrecv1.
    destruct q; simpl.
    + destruct (first_receiving (httpsWorkers s)) as (j & -> & Hj); [lia|done|].
      unfold step. rewrite Hp, Hm. simpl. rewrite Hhttps, Hj. by eexists.
    + assert (httpURLs_closed s = false) as Ho.
      { destruct (httpURLs_closed s) eqn:Hcl; [|done].
        specialize (Hclosed1 eq_refl).
        apply running_none_finished in Hnone. lia. }
      pose proof (all_receiving _ F1 F2 Hterm (Hopen2 Ho)) as Hrecv2.
      destruct (first_receiving (httpWorkers s)) as (j & -> & Hj); [lia|done|].
      unfold step. rewrite Hp, Hm. simpl. rewrite Ho, Hj. by eexists.
  - assert (httpsURLs_closed s = true) as Hhttps by (apply Hpast; by intros p).
    destruct (first_at is_receiving (httpsWorkers s)) as [i|] eqn:F6.
    { apply first_at_Some in F6 as (w & Hi & Hw). destruct w; try done.
      unfold step. rewrite Hp, Hm, Hi, Hhttps. by eexists. }
    apply first_at_None in F6.
    pose proof (all_finished _ F3 F4 F5 F6) as Hdone1.
    destruct (httpURLs_closed s) eqn:Ho; simpl.
    2:{ unfold step. rewrite Hp, Hm, Hwg1, Hdone1, Ho. by eexists. }
    destruct (first_at is_receiving (httpWorkers s)) as [j|] eqn:F7.
    { apply first_at_Some in F7 as (w & Hj & Hw). destruct w; try done.
      unfold step. rewrite Hp, Hm, Hj, Ho. by eexists. }
    apply first_at_None in F7.
    pose proof (all_finished _ F1 F2 Hterm F7) as Hdone2.
    destruct (output_closed s) eqn:Hoc; simpl.
    2:{ unfold step. rewrite Hp, Hm, Hwg2, Hdone2, Hoc. by eexists. }
    destruct (outputWG s =? 1) eqn:Hone.
    { unfold step. rewrite Hp, Hm, Hoc, Hone. by eexists. }
    apply Z.eqb_neq in Hone.
    assert (outputWG s = 0) as Hzero by lia.
    unfold step. rewrite Hp, Hm, Hzero. by eexists.
  - by destruct (Hnexit file).
Qed.

(** X12: with [concurrency] at least 2 the pipeline never deadlocks:
    in every state of every run in which [main] has not returned, the
    scheduler's choice is a step the state allows. *)
Theorem no_deadlock (cfg : Config) (lines : list string) (s : State) :
  reachable cfg lines s -> 2 <= concurrency cfg ->
  (exists e s', step cfg s e = Some s') \/ (exists file, main s = Exited file).
Proof.
  intros Hs Hc. destruct (main s) as [pending| |file] eqn:Hm.
  3:{ right. by exists file. }
  all: left; exists (next_event client_timeout s).
  all: apply (next_event_step cfg lines); [done|done|].
  all: intros file; by rewrite Hm.
Qed.




(** X14: with [concurrency] at most 1 no worker exists; if the input
    has any target to send, the input loop never gets past its first
    send: nothing is ever probed, no result is stored and [main] never
    reaches [writeJSONFile]. *)
Theorem no_workers_no_probe (cfg : Config) (lines : list string) (s : State) :
  concurrency cfg <= 1 ->
  expand_input (skipDefault cfg) (probes cfg) lines <> [] ->
  reachable cfg lines s ->
  main s = Expanding (expand_input (skipDefault cfg) (probes cfg) lines) /\
  attempts s = [] /\ results s = ∅ /\
  httpsWorkers s = [] /\ httpWorkers s = [].
Proof.
  intros Hc Hsends (schedule & Hrun).
  assert (pool_size cfg = 0%nat) as Hpool.
  { unfold pool_size.
    destruct (decide (0 <= concurrency cfg)).
    - rewrite Z.quot_div_nonneg by lia.
      assert (concurrency cfg / 2 = 0) as -> by (apply Z.div_small; lia). done.
    - assert (concurrency cfg ÷ 2 <= 0) by (apply Z.quot_le_upper_bound; lia). lia. }
  apply (run_invariant cfg (fun s =>
    main s = Expanding (expand_input (skipDefault cfg) (probes cfg) lines) /\
    attempts s = [] /\ results s = ∅ /\
    httpsWorkers s = [] /\ httpWorkers s = []))
    with (schedule := schedule) (s := init cfg lines); [| |done].
  - clear Hrun. intros s0 e s1 (Hm & Ha & Hr & Hw1 & Hw2) Hstep.
    destruct s0. simpl in *. subst.
    unfold step in Hstep. simpl in Hstep.
    destruct (expand_input (skipDefault cfg) (probes cfg) lines) as [|[q t] rest];
      [done|].
    destruct e; simpl in Hstep;
      repeat (case_match; simplify_eq; try discriminate);
      try (destruct q; simpl in * ); simplify_eq; done.
  - simpl. rewrite Hpool. done.
Qed.

(** ** Where results and targets come from *)

Lemma msum_elem_of {A B : Type} `{Countable B} (f : A -> gmultiset B) (l : list A) (x : B) :
  x ∈ msum f l <-> exists a, In a l /\ x ∈ f a.
Proof.
  induction l as [|a l IH]; simpl.
  - split; [|by intros (a & [] & _)].
    intros Hx. by apply gmultiset_not_elem_of_empty in Hx.
  - rewrite gmultiset_elem_of_disj_union, IH. split.
    + intros [Hx|(b & Hb & Hx)]; [exists a|exists b]; auto.
    + intros (b & [<-|Hb] & Hx); [by left|right; eauto].
Qed.

Lemma sends_on_elem_of (q : Queue) (sends : list (Queue * string)) (target : string) :
  target ∈ sends_on q sends <-> In (q, target) sends.
Proof.
  unfold sends_on. rewrite msum_elem_of. split.
  - intros ([q' t] & Hin & Hx). case_decide; simplify_eq.
    + by apply gmultiset_elem_of_singleton in Hx as ->.
    + by apply gmultiset_not_elem_of_empty in Hx.
  - intros Hin. exists (q, target). split; [done|].
    rewrite decide_True by done. by apply gmultiset_elem_of_singleton.
Qed.

Lemma probed_on_elem_of (q : Queue) (log : list Attempt) (target : string) :
  target ∈ probed_on q log <->
  exists a, In a log /\ att_stage a = q /\ att_target a = target.
Proof.
  unfold probed_on. rewrite msum_elem_of. split.
  - intros (a & Hin & Hx). exists a. split; [done|]. case_decide.
    + by apply gmultiset_elem_of_singleton in Hx as ->.
    + by apply gmultiset_not_elem_of_empty in Hx.
  - intros (a & Hin & Hq & Ht). exists a. split; [done|].
    rewrite decide_True by done. by apply gmultiset_elem_of_singleton.
Qed.

Lemma handed_on_elem_of (cfg : Config) (log : list Attempt) (target : string) :
  target ∈ handed_on cfg log ->
  exists a, In a log /\ att_stage a = httpsURLs /\ att_target a = target /\
            (preferHTTPS cfg = true -> att_found a = None).
Proof.
  unfold handed_on. rewrite msum_elem_of.
  intros (a & Hin & Hx). exists a. split; [done|].
  destruct (att_stage a); [|by apply gmultiset_not_elem_of_empty in Hx].
  split; [done|].
  destruct (att_found a) as [res|].
  - destruct (preferHTTPS cfg); [by apply gmultiset_not_elem_of_empty in Hx|].
    by apply gmultiset_elem_of_singleton in Hx as ->.
  - by apply gmultiset_elem_of_singleton in Hx as ->.
Qed.

Lemma found_in_elem_of (log : list Attempt) (res : Result) :
  res ∈ found_in log <-> exists a, In a log /\ att_found a = Some res.
Proof.
  unfold found_in. rewrite msum_elem_of. split.
  - intros (a & Hin & Hx). exists a. split; [done|].
    destruct (att_found a) as [r|].
    + by apply gmultiset_elem_of_singleton in Hx as ->.
    + by apply gmultiset_not_elem_of_empty in Hx.
  - intros (a & Hin & Hf). exists a. split; [done|].
    rewrite Hf. by apply gmultiset_elem_of_singleton.
Qed.

(** Every target that is probed was sent by the input loop. *)
Lemma attempt_target_sent cfg lines s a :
  reachable cfg lines s -> In a (attempts s) ->
  exists q, In (q, att_target a)
               (expand_input (skipDefault cfg) (probes cfg) lines).
Proof.
  intros Hs Hin.
  destruct (reachable_conservation _ _ _ Hs) as [_ Hhttps Hhttp].
  assert (forall b, In b (attempts s) -> att_stage b = httpsURLs ->
            In (httpsURLs, att_target b)
               (expand_input (skipDefault cfg) (probes cfg) lines)) as Hfirst.
  { intros b Hb Hstage. apply sends_on_elem_of. rewrite <- Hhttps.
    rewrite !gmultiset_elem_of_disj_union. left. left.
    apply probed_on_elem_of. by exists b. }
  destruct (att_stage a) eqn:Hstage.
  - exists httpsURLs. by apply Hfirst.
  - assert (att_target a ∈ sends_on httpURLs
              (expand_input (skipDefault cfg) (probes cfg) lines)
              ⊎ handed_on cfg (attempts s)) as Hx.
    { rewrite <- Hhttp. rewrite !gmultiset_elem_of_disj_union. left. left. left.
      apply probed_on_elem_of. by exists a. }
    apply gmultiset_elem_of_disj_union in Hx as [Hx|Hx].
    + exists httpURLs. by apply sends_on_elem_of.
    + apply handed_on_elem_of in Hx as (b & Hb & Hbs & Hbt & _).
      exists httpsURLs. rewrite <- Hbt. by apply Hfirst.
Qed.

(** X15: every stored result comes from a prober call: a call with
    this result and status code is in the log, the result's URL is the
    worker's scheme followed by the target probed, and this target was
    sent by the input loop for an input line: it is the lowered line
    alone or followed by a colon and a port part. *)
Theorem results_provenance
    (cfg : Config) (lines : list string) (s : State)
    (code : Z) (found : list Result) (res : Result) :
  reachable cfg lines s ->
  results s !! code = Some found -> In res found ->
  exists a line q,
    In a (attempts s) /\ att_found a = Some res /\ att_status a = code /\
    URL res = scheme (att_stage a) +:+ att_target a /\
    In line lines /\
    In (q, att_target a) (expand (skipDefault cfg) (probes cfg) (ToLower line)) /\
    (att_target a = ToLower line \/
     exists rest, att_target a = ToLower line +:+ ":" +:+ rest).
Proof.
  intros Hs Hfound Hin.
  destruct (reachable_conservation _ _ _ Hs) as [(arrived & Hagg & Hres) _ _].
  rewrite Hagg, aggregate_lookup in Hfound.
  destruct (with_code code arrived) as [|r rest] eqn:Hw; [done|].
  injection Hfound as <-. rewrite <- Hw in Hin.
  apply list_elem_of_In, list_elem_of_filter in Hin as [Hcode Harr].
  assert (res ∈ found_in (attempts s)) as Hlog.
  { rewrite <- Hres. rewrite !gmultiset_elem_of_disj_union. left. left.
    by apply elem_of_list_to_set_disj. }
  apply found_in_elem_of in Hlog as (a & Ha & Hf).
  pose proof (attempts_sound _ _ _ Hs) as Hsound.
  pose proof (proj1 (List.Forall_forall _ _) Hsound a Ha) as Hsa.
  unfold sound_attempt in Hsa. rewrite Hf in Hsa. destruct Hsa as (_ & Hst & Hurl).
  destruct (attempt_target_sent _ _ _ _ Hs Ha) as (q & Hsent).
  pose proof Hsent as Hsent'.
  unfold expand_input in Hsent. apply in_flat_map in Hsent as (line & Hline & Hexp).
  exists a, line, q. repeat (split; [done || congruence|]).
  unfold expand in Hexp.
  destruct (negb (skipDefault cfg) && (length (probes cfg) =? 0)%nat).
  - left. simpl in Hexp. destruct Hexp as [H|[H|[]]]; by inversion H.
  - right. apply in_flat_map in Hexp as (p & _ & Hp).
    by apply expand_probe_target in Hp.
Qed.

(** ** Which targets are probed how often *)

Lemma sends_on_app (q : Queue) (a b : list (Queue * string)) :
  sends_on q (a ++ b) = sends_on q a ⊎ sends_on q b.
Proof.
  unfold sends_on. induction a as [|x a IH]; simpl.
  - multiset_lia.
  - rewrite IH. multiset_lia.
Qed.

Lemma sends_on_default (q : Queue) (lines : list string) :
  sends_on q (expand_input false [] lines) = list_to_set_disj (map ToLower lines).
Proof.
  unfold expand_input. induction lines as [|line lines IH]; [done|].
  change (flat_map (fun line => expand false [] (ToLower line)) (line :: lines))
    with (expand false [] (ToLower line)
          ++ flat_map (fun line => expand false [] (ToLower line)) lines).
  rewrite sends_on_app, IH. simpl map.
  rewrite list_to_set_disj_cons. f_equal.
  unfold expand, sends_on. simpl. destruct q; simpl; repeat case_decide;
    simplify_eq; multiset_lia.
Qed.

Lemma handed_on_all (cfg : Config) (log : list Attempt) :
  preferHTTPS cfg = false -> handed_on cfg log = probed_on httpsURLs log.
Proof.
  intros Hp. unfold handed_on, probed_on.
  induction log as [|a log IH]; [done|]. simpl. rewrite IH, Hp. f_equal.
  destruct (att_stage a), (att_found a); by repeat case_decide.
Qed.

(** X16: with the default probes not skipped ([skipDefault] false), no
    probe spec and [concurrency] at least 2, when the output channel is
    closed every lowered input line has been probed over HTTPS once per
    occurrence, and over HTTP once per occurrence plus once for every
    HTTPS call the HTTPS stage handed on: without [preferHTTPS] that is
    twice per occurrence. *)
Theorem default_probing_attempts (cfg : Config) (lines : list string) (s : State) :
  skipDefault cfg = false -> probes cfg = [] -> 2 <= concurrency cfg ->
  reachable cfg lines s -> output_closed s = true ->
  probed_on httpsURLs (attempts s) = list_to_set_disj (map ToLower lines) /\
  probed_on httpURLs (attempts s) =
    list_to_set_disj (map ToLower lines) ⊎ handed_on cfg (attempts s) /\
  (preferHTTPS cfg = false ->
   probed_on httpURLs (attempts s) =
     list_to_set_disj (map ToLower lines) ⊎ list_to_set_disj (map ToLower lines)).
Proof.
  intros Hskip Hprobes Hc Hs Hout.
  pose proof (reachable_shutdown_inv _ _ _ Hs) as Hinv.
  destruct (output_closed_conservation _ _ _ Hs Hout) as (_ & Hhttps & Hhttp).
  rewrite Hskip, Hprobes, sends_on_default in Hhttps, Hhttp.
  assert (forall q, pending_on q (main s) = ∅) as Hpend.
  { intros q. destruct (main s) as [pending| |file] eqn:Hm; try done.
    by destruct (output_closed_past_loop _ _ pending Hinv (pool_size_pos _ Hc) Hout). }
  rewrite Hpend, (right_id ∅ (⊎)) in Hhttps, Hhttp.
  split; [done|]. split; [done|].
  intros Hp. rewrite Hhttp, (handed_on_all _ _ Hp), Hhttps. done.
Qed.

Lemma sends_on_https_specs (skip : bool) (probes lines : list string) :
  probes <> [] -> Forall https_spec probes ->
  sends_on httpURLs (expand_input skip probes lines) = ∅.
Proof.
  intros Hne Hall. unfold expand_input.
  induction lines as [|line lines IH]; [done|].
  change (flat_map (fun line => expand skip probes (ToLower line)) (line :: lines))
    with (expand skip probes (ToLower line)
          ++ flat_map (fun line => expand skip probes (ToLower line)) lines).
  rewrite sends_on_app, IH, (right_id ∅ (⊎)).
  rewrite expand_with_probes by done. clear Hne IH.
  induction Hall as [|p probes (proto & port & Hc & Hl & ->) _ IH]; [done|].
  change (flat_map (expand_probe (ToLower line)) ((proto +:+ ":" +:+ port) :: probes))
    with (expand_probe (ToLower line) (proto +:+ ":" +:+ port)
          ++ flat_map (expand_probe (ToLower line)) probes).
  rewrite sends_on_app, IH, (right_id ∅ (⊎)).
  rewrite (expand_probe_explicit _ _ _ Hc), Hl. simpl.
  unfold sends_on. simpl. multiset_lia.
Qed.

(** X17: when every probe spec names the HTTPS scheme and
    [preferHTTPS] is set, a target is probed over HTTP only after an
    HTTPS call for the same target returned status 0. *)
Theorem https_specs_prefer_https
    (cfg : Config) (lines : list string) (s : State) (a : Attempt) :
  probes cfg <> [] -> Forall https_spec (probes cfg) -> preferHTTPS cfg = true ->
  reachable cfg lines s ->
  In a (attempts s) -> att_stage a = httpURLs ->
  In (mkAttempt httpsURLs (att_target a) 0 None) (attempts s).
Proof.
  intros Hne Hall Hprefer Hs Ha Hstage.
  destruct (reachable_conservation _ _ _ Hs) as [_ _ Hhttp].
  rewrite (sends_on_https_specs _ _ _ Hne Hall), (left_id ∅ (⊎)) in Hhttp.
  assert (att_target a ∈ handed_on cfg (attempts s)) as Hx.
  { rewrite <- Hhttp. rewrite !gmultiset_elem_of_disj_union. left. left. left.
    apply probed_on_elem_of. by exists a. }
  apply handed_on_elem_of in Hx as (b & Hb & Hbs & Hbt & Hbf).
  specialize (Hbf Hprefer).
  pose proof (attempts_sound _ _ _ Hs) as Hsound.
  pose proof (proj1 (List.Forall_forall _ _) Hsound b Hb) as Hsb.
  unfold sound_attempt in Hsb. rewrite Hbf in Hsb.
  destruct b as [bs bt bc bf]. simpl in *. by subst.
Qed.

(** A run that has panicked has not written its report. *)
Lemma panicked_not_exited cfg lines s :
  reachable cfg lines s -> panicked s = true -> forall file, main s <> Exited file.
Proof.
  intros (schedule & Hrun).
  apply (run_invariant cfg (fun s => panicked s = true ->
                                     forall file, main s <> Exited file))
    with (schedule := schedule) (s := init cfg lines); [|done|done].
  clear. intros s e s' _ Hstep.
  destruct s. unfold step in Hstep. simpl in *.
  destruct e; simpl in Hstep;
    repeat (case_match; simplify_eq; try discriminate);
    try (destruct q; simpl in * ); simplify_eq; try done.
Qed.

(** X18: when [main] has returned, the file holds the report of the
    results that arrived, which are exactly the results of the prober
    calls; every target sent on the HTTPS queue was probed once, every
    target sent or handed on to the HTTP queue was probed once; all
    workers have finished, [httpsURLs] and [output] are closed and no
    panic has occurred. *)
Theorem finished_run_report
    (cfg : Config) (lines : list string) (s : State) (file : option (gmap string JSON)) :
  reachable cfg lines s -> main s = Exited file ->
  (exists io arrived,
     file = writeJSONFile io (aggregate arrived) /\
     results s = aggregate arrived /\
     list_to_set_disj arrived = found_in (attempts s)) /\
  probed_on httpsURLs (attempts s) =
    sends_on httpsURLs (expand_input (skipDefault cfg) (probes cfg) lines) /\
  probed_on httpURLs (attempts s) =
    sends_on httpURLs (expand_input (skipDefault cfg) (probes cfg) lines)
    ⊎ handed_on cfg (attempts s) /\
  Forall (fun w => w = Finished) (httpsWorkers s) /\
  Forall (fun w => w = Finished) (httpWorkers s) /\
  httpsURLs_closed s = true /\ output_closed s = true /\ panicked s = false.
Proof.
  intros Hs Hmain.
  pose proof (reachable_shutdown_inv _ _ _ Hs) as Hinv.
  pose proof (reachable_progress_inv _ _ _ Hs) as [_ Hpast _].
  destruct (inv_exited _ _ Hinv _ Hmain) as (Hwg & _).
  pose proof (inv_outputWG _ _ Hinv Hwg) as Hout.
  destruct (output_closed_conservation _ _ _ Hs Hout) as (_ & Hhttps & Hhttp).
  destruct (output_closed_all_done _ _ Hinv Hout) as [Hd2 Hd1].
  rewrite Hmain in Hhttps, Hhttp. simpl in Hhttps, Hhttp.
  rewrite (right_id ∅ (⊎)) in Hhttps, Hhttp.
  split; [by apply (exited_file cfg lines)|].
  repeat (split; [done || by apply running_zero|]).
  split; [apply Hpast; intros p; congruence|]. split; [done|].
  destruct (panicked s) eqn:Hp; [|done].
  by destruct (panicked_not_exited _ _ _ Hs Hp file).
Qed.

(** X19: at every moment of every run nothing is counted twice: the
    results that have arrived are among those the prober calls built, no
    target has been probed over HTTPS more often than it was sent, none
    over HTTP more often than it was sent or handed on, and only targets
    probed over HTTPS are handed on. *)
Theorem at_most_once (cfg : Config) (lines : list string) (s : State) :
  reachable cfg lines s ->
  (exists arrived,
     results s = aggregate arrived /\
     list_to_set_disj arrived ⊆ found_in (attempts s)) /\
  probed_on httpsURLs (attempts s) ⊆
    sends_on httpsURLs (expand_input (skipDefault cfg) (probes cfg) lines) /\
  probed_on httpURLs (attempts s) ⊆
    sends_on httpURLs (expand_input (skipDefault cfg) (probes cfg) lines)
    ⊎ handed_on cfg (attempts s) /\
  handed_on cfg (attempts s) ⊆ probed_on httpsURLs (attempts s).
Proof.
  intros Hs.
  destruct (reachable_conservation _ _ _ Hs)
    as [(arrived & Hagg & Hres) Hhttps Hhttp].
  split; [|split; [|split]].
  - exists arrived. split; [done|]. rewrite <- Hres.
    etrans; [|apply gmultiset_disj_union_subseteq_l].
    apply gmultiset_disj_union_subseteq_l.
  - rewrite <- Hhttps.
    etrans; [|apply gmultiset_disj_union_subseteq_l].
    apply gmultiset_disj_union_subseteq_l.
  - rewrite <- Hhttp.
    etrans; [|apply gmultiset_disj_union_subseteq_l].
    etrans; [|apply gmultiset_disj_union_subseteq_l].
    apply gmultiset_disj_union_subseteq_l.
  - unfold handed_on, probed_on. clear.
    induction (attempts s) as [|a log IH]; [done|]. simpl.
    apply gmultiset_disj_union_mono; [|done].
    destruct (att_stage a), (att_found a), (preferHTTPS cfg);
      repeat case_decide; try done; apply gmultiset_empty_subseteq.
Qed.

(** X20: the report a finished run has written has no key ["0"] and no
    [null]: every key is the decimal text of a non-zero status code and
    its value is the non-empty array of the entries of the results
    stored under this code; it has as many keys as the map. *)
Theorem finished_report_wellformed
    (cfg : Config) (lines : list string) (s : State) (doc : gmap string JSON) :
  reachable cfg lines s -> main s = Exited (Some doc) ->
  doc !! Sprintf_d 0 = None /\
  (forall key value,
     doc !! key = Some value ->
     exists code found,
       key = Sprintf_d code /\ code <> 0 /\
       results s !! code = Some found /\ found <> [] /\
       value = JArray (map (entry code) found)) /\
  size doc = size (results s).
Proof.
  intros Hs Hmain.
  pose proof (reachable_shutdown_inv _ _ _ Hs) as Hinv.
  destruct (inv_exited _ _ Hinv _ Hmain) as (_ & io & Hfile).
  destruct io; try done. unfold writeJSONFile in Hfile. injection Hfile as ->.
  pose proof (reachable_sound_results _ _ _ Hs) as Hall.
  destruct (jsonData_spec (results s)) as [Hcode Hkey].
  assert (forall code found, results s !! code = Some found ->
            code <> 0 /\ found <> []) as Hstored.
  { intros code found Hf.
    destruct (results_all_lookup _ _ _ _ Hall Hf) as [Hne Hfa].
    split; [|done]. destruct found as [|r found]; [done|].
    inversion_clear Hfa as [|? ? (Hc & Hz & _) _]. congruence. }
  split; [|split].
  - rewrite lookup_fmap, Hcode.
    destruct (results s !! 0) as [found|] eqn:Hz; [|done].
    by destruct (Hstored _ _ Hz).
  - intros key value Hv. rewrite lookup_fmap in Hv.
    destruct (jsonData (results s) !! key) as [items|] eqn:Hitems; [|done].
    injection Hv as <-.
    destruct (Hkey key) as (code & -> & [found Hfound]); [by eexists|].
    destruct (Hstored _ _ Hfound) as [Hnz Hne].
    exists code, found. repeat (split; [done|]).
    rewrite Hcode, Hfound in Hitems. injection Hitems as <-.
    rewrite entries_map. by destruct found.
  - by rewrite map_size_fmap, jsonData_size.
Qed.

End Program.

(** * Examples *)

(** The statements above at concrete inputs.  All strings here are
    ASCII, so [ToLower] lowers them by [lower_bytes] whatever the tables
    are; [tables_unused] closes the terms. *)

#[global] Existing Instance tables_unused.

Lemma explicit_probe_one_queue_witness :
  expand_probe "bar.test" "HttpS:8443" = [(httpsURLs, "bar.test:8443")] /\
  expand_probe "bar.test" "http:8080" = [(httpURLs, "bar.test:8080")] /\
  expand_probe "bar.test" "ftp:21" = [(httpURLs, "bar.test:21")] /\
  expand false ["large"; "HttpS:8443"; "http:8080"] "bar.test" =
    flat_map (expand_probe "bar.test") ["large"]
    ++ [(httpsURLs, "bar.test:8443")]
    ++ flat_map (expand_probe "bar.test") ["http:8080"].
Proof.
  split; [|split; [|split]].
  - exact (proj1 (explicit_probe_one_queue false [] []
                    "bar.test" "HttpS" "8443" eq_refl)).
  - exact (proj1 (explicit_probe_one_queue false [] []
                    "bar.test" "http" "8080" eq_refl)).
  - exact (proj1 (explicit_probe_one_queue false [] []
                    "bar.test" "ftp" "21" eq_refl)).
  - exact (proj2 (explicit_probe_one_queue false ["large"] ["http:8080"]
                    "bar.test" "HttpS" "8443" eq_refl)).
Defined.

Lemma malformed_probe_skipped_witness :
  expand_input false ["noport"] ["foo.test"; "bar.test"] = [] /\
  expand_input false ["https:8443"; "noport"; "http:81"] ["foo.test"] =
    [(httpsURLs, "foo.test:8443"); (httpURLs, "foo.test:81")].
Proof.
  split.
  - exact (proj2 (malformed_probe_skipped false [] [] "noport"
                    ["foo.test"; "bar.test"] eq_refl
                    ltac:(discriminate) ltac:(discriminate))).
  - exact (proj2 (malformed_probe_skipped false ["https:8443"] ["http:81"] "noport"
                    ["foo.test"] eq_refl
                    ltac:(discriminate) ltac:(discriminate))).
Defined.

Lemma default_probes_iff_witness :
  expand false [] "example.com" =
    [(httpsURLs, "example.com"); (httpURLs, "example.com")] /\
  expand false ["http:8080"] "example.com" = [(httpURLs, "example.com:8080")] /\
  expand true [] "example.com" = [].
Proof.
  pose proof (default_probes_iff false [] "example.com") as (_ & H1 & _ & _).
  pose proof (default_probes_iff false ["http:8080"] "example.com") as (_ & _ & H2 & _).
  pose proof (default_probes_iff true [] "example.com") as (_ & _ & _ & H3).
  split; [exact (H1 eq_refl eq_refl)|].
  split; [exact (H2 ltac:(discriminate))|exact (H3 eq_refl eq_refl)].
Defined.

Lemma prober_failure_sentinel_witness :
  getStatusAndRedirect client_bad_request "https://foo.test" "GET" = (0, "") /\
  getStatusAndRedirect client_timeout "https://foo.test" "GET" = (0, "").
Proof.
  split.
  - exact (proj1 (prober_failure_sentinel client_bad_request "https://foo.test" "GET")
             eq_refl).
  - exact (proj1 (proj2 (prober_failure_sentinel client_timeout "https://foo.test" "GET"))
             (mkRequest "GET" "https://foo.test" [] false) None eq_refl eq_refl).
Defined.

Lemma report_groups_by_status_witness :
  writeJSONFile FileWritten
    (aggregate [mkResult "https://onthego.test" 200 "";
                mkResult "http://www.buses.test" 301 "https://buses.test";
                mkResult "https://acetest.test" 200 ""])
  = Some {[ "200" := JArray [JString "https://onthego.test"; JString "https://acetest.test"];
            "301" := JArray [JObject [("url", JString "http://www.buses.test");
                                      ("redirected_url", JString "https://buses.test")]] ]}.
Proof.
  destruct (report_groups_by_status
              [mkResult "https://onthego.test" 200 "";
               mkResult "http://www.buses.test" 301 "https://buses.test";
               mkResult "https://acetest.test" 200 ""]) as (doc & Hdoc & _).
  rewrite Hdoc. f_equal. injection Hdoc as <-. by vm_compute.
Defined.

Lemma results_status_nonzero_witness :
  exists s,
    run cfg_prefer (init cfg_prefer ["example.com"])
        (schedule_both (client_answering 200 ∅) ++ schedule_finish) = Some s /\
    results s !! 0 = None /\
    (forall code found res,
       results s !! code = Some found -> In res found -> 0 < StatusCode res).
Proof.
  destruct (run cfg_prefer (init cfg_prefer ["example.com"])
              (schedule_both (client_answering 200 ∅) ++ schedule_finish))
    as [s|] eqn:Hrun; [|by vm_compute in Hrun].
  exists s. split; [done|].
  destruct (results_status_nonzero _ _ _ _ Hrun) as (Hzero & _ & _ & Hpos).
  split; [done|]. apply Hpos.
  repeat constructor; simpl; intros req resp [= <-]; simpl; lia.
Defined.

(** C2, refuted as stated: a response with status 304 and no
    [Location] header makes the prober return [(304, "")], and the
    HTTPS worker delivers a result with a status in [300,400) and an
    empty [RedirectedURL]. *)
Lemma redirect_iff_counterexample :
  getStatusAndRedirect (client_answering 304 ∅) "https://foo.test" "GET" = (304, "") /\
  exists s,
    run cfg_prefer (init cfg_prefer ["foo.test"])
        (schedule_both (client_answering 304 ∅)) = Some s /\
    results s !! 304 = Some [mkResult "https://foo.test" 304 ""].
Proof.
  split; [reflexivity|].
  eexists. split; [by vm_compute|]. by vm_compute.
Qed.

Lemma redirect_only_for_3xx_witness :
  300 <= 301 < 400 /\
  exists req resp,
    NewRequest (client_answering 301 {[ "Location" := ["https://foo.test/"] ]})
      "GET" "http://foo.test" = Some req /\
    Do (client_answering 301 {[ "Location" := ["https://foo.test/"] ]})
      (connection_close req) = DoResponse resp /\
    "https://foo.test/" = Header_Get (resp_Header resp) "Location".
Proof.
  pose proof (proj1 redirect_only_for_3xx
                (client_answering 301 {[ "Location" := ["https://foo.test/"] ]})
                "http://foo.test" "GET" 301 "https://foo.test/" eq_refl) as [H1 H2].
  split; [apply H1; discriminate|]. apply H2. lia.
Defined.

(** C4, refuted as stated: with [concurrency] 1 no worker is started,
    [httpsWG.Wait()] returns at once and [httpURLs] is closed while the
    input loop still has the target of the probe spec [http:80] to send:
    a send on a closed channel. *)
Lemma send_on_closed_counterexample :
  exists s,
    run cfg_single (init cfg_single ["foo.test"]) schedule_closed_send = Some s /\
    main s = Expanding [(httpURLs, "foo.test:80")] /\
    httpURLs_closed s = true /\
    panicked s = true.
Proof. eexists. split; [by vm_compute|]. by vm_compute. Qed.

Lemma shutdown_order_witness :
  exists s,
    run cfg_prefer (init cfg_prefer ["example.com"])
        (schedule_both (client_answering 200 ∅) ++ schedule_finish) = Some s /\
    Forall (fun w => w = Finished) (httpsWorkers s) /\
    Forall (fun w => w = Finished) (httpWorkers s) /\
    panicked s = false.
Proof.
  destruct (run cfg_prefer (init cfg_prefer ["example.com"])
              (schedule_both (client_answering 200 ∅) ++ schedule_finish))
    as [s|] eqn:Hrun; [|by vm_compute in Hrun].
  exists s. split; [done|].
  destruct (shutdown_order _ _ _ _ Hrun) as (H1 & H2 & _ & _ & _ & _ & H3).
  vm_compute in Hrun. injection Hrun as <-.
  split; [by apply H1|]. split; [by apply H2|].
  apply H3. simpl. lia.
Defined.

Lemma probeArgs_accumulate_witness :
  probeArgs_Set ["large"] "https:8443" !! 0%nat = Some "large".
Proof.
  destruct (probeArgs_accumulate [] ["large"] "https:8443") as (_ & _ & _ & H & _).
  rewrite (H 0%nat); [done|simpl; lia].
Defined.

Lemma timeout_exact_iff_witness :
  timeout 64 10000 = 10000000000 /\ timeout 32 10000 <> 10000000000.
Proof.
  destruct (timeout_exact_iff 64 10000 (or_intror eq_refl)) as [H64 _].
  destruct (timeout_exact_iff 32 10000 (or_introl eq_refl)) as [H32 _].
  split.
  - apply H64. simpl. lia.
  - intros H. apply H32 in H. simpl in H. lia.
Defined.

Lemma pool_size_split_witness :
  7 - 1 <= 2 * Z.of_nat (pool_size (mkConfig 7 [] false false "GET")) <= 7.
Proof.
  destruct (pool_size_split (mkConfig 7 [] false false "GET")) as (_ & H & _).
  apply H. simpl. lia.
Defined.

Lemma prober_sentinel_iff_witness :
  getStatusAndRedirect (client_answering 0 ∅) "https://foo.test" "GET" = (0, "") /\
  snd (probe cfg_prefer (client_answering 0 ∅) httpsURLs "foo.test") = None.
Proof.
  destruct (prober_sentinel_iff (client_answering 0 ∅) "https://foo.test" "GET")
    as (_ & H & _).
  destruct (prober_sentinel_iff (client_answering 0 ∅) "foo.test" "GET")
    as (_ & _ & Hp).
  split.
  - exact (H (mkRequest "GET" "https://foo.test" [] false) (mkResponse 0 ∅)
             eq_refl eq_refl).
  - by apply (Hp cfg_prefer httpsURLs).
Defined.

Lemma expand_probe_cases_witness :
  exists proto port,
    "https:80:90" = proto +:+ ":" +:+ port /\ contains ":" proto = false /\
    expand_probe "foo.test" "https:80:90" =
      [(if String.eqb (ToLower proto) "https" then httpsURLs else httpURLs,
        "foo.test" +:+ ":" +:+ port)].
Proof.
  destruct (expand_probe_cases "foo.test" "https:80:90") as (_ & _ & H & _).
  apply H; [discriminate|discriminate|reflexivity].
Defined.

Lemma expand_appends_witness :
  length (expand false (["large"] ++ ["large"]) "foo.test") =
    (2 * length (expand false ["large"] "foo.test"))%nat.
Proof.
  apply (expand_appends false ["large"] ["large"] "foo.test"); discriminate.
Defined.

Lemma expand_input_sends_witness :
  exists line,
    In line ["Foo.Test"] /\
    ("foo.test:8443" = ToLower line \/
     exists rest, "foo.test:8443" = ToLower line +:+ ":" +:+ rest) /\
    (isASCII line = true ->
     same_ignoring_case (ToLower line) line = true /\
     has_capital (ToLower line) = false).
Proof.
  destruct (expand_input_sends false ["https:8443"] ["Foo.Test"]) as (_ & H & _).
  apply (H httpsURLs). simpl. by left.
Defined.

Lemma template_on_both_queues_witness :
  queue_targets httpsURLs (expand_probe "foo.test" "large") =
    queue_targets httpURLs (expand_probe "foo.test" "large").
Proof. apply (template_on_both_queues "foo.test" "large"). by left. Defined.

Lemma aggregate_partitions_witness :
  aggregate [mkResult "https://a.test" 200 ""; mkResult "http://b.test" 404 "";
             mkResult "http://a.test" 200 ""] !! 200
  = Some [mkResult "https://a.test" 200 ""; mkResult "http://a.test" 200 ""].
Proof.
  apply (proj1 (aggregate_partitions _)). split; [reflexivity|discriminate].
Defined.

Lemma report_of_any_map_witness :
  exists doc,
    writeJSONFile FileWritten {[ 200 := [] ]} = Some doc /\
    doc !! "200" = Some JNull.
Proof.
  destruct (report_of_any_map {[ 200 := [] ]}) as (_ & _ & doc & Hdoc & _ & Hcode & _).
  exists doc. split; [done|].
  change "200" with (Sprintf_d 200). by rewrite Hcode.
Defined.

Lemma run_length_bounded_witness :
  Z.of_nat (length (schedule_both (client_answering 200 ∅) ++ schedule_finish))
  <= 6 * 1 + 3 * 1 + 2 * 1 + 6.
Proof.
  destruct (run cfg_prefer (init cfg_prefer ["example.com"])
              (schedule_both (client_answering 200 ∅) ++ schedule_finish))
    as [s|] eqn:Hrun; [|by vm_compute in Hrun].
  exact (run_length_bounded _ _ _ _ Hrun).
Defined.

Lemma no_deadlock_witness :
  exists e s', step cfg_prefer (init cfg_prefer ["example.com"]) e = Some s'.
Proof.
  destruct (no_deadlock cfg_prefer ["example.com"] (init cfg_prefer ["example.com"]))
    as [H|[file H]].
  - by exists [].
  - simpl. lia.
  - exact H.
  - discriminate H.
Defined.


Lemma no_workers_no_probe_witness :
  exists s,
    run cfg_single (init cfg_single ["foo.test"]) [CloseHTTP; CloseOutput; OutputDone]
      = Some s /\
    main s = Expanding [(httpURLs, "foo.test:80")] /\ attempts s = [].
Proof.
  destruct (run cfg_single (init cfg_single ["foo.test"])
              [CloseHTTP; CloseOutput; OutputDone]) as [s|] eqn:Hrun;
    [|by vm_compute in Hrun].
  exists s. split; [done|].
  destruct (no_workers_no_probe cfg_single ["foo.test"] s) as (Hm & Ha & _).
  - simpl. lia.
  - discriminate.
  - by eexists.
  - by split.
Defined.

Lemma results_provenance_witness :
  exists s a line q,
    run cfg_prefer (init cfg_prefer ["example.com"])
        (schedule_both (client_answering 200 ∅)) = Some s /\
    In a (attempts s) /\
    att_found a = Some (mkResult "https://example.com" 200 "") /\
    In line ["example.com"] /\
    In (q, att_target a) (expand false [] (ToLower line)).
Proof.
  destruct (run cfg_prefer (init cfg_prefer ["example.com"])
              (schedule_both (client_answering 200 ∅))) as [s|] eqn:Hrun;
    [|by vm_compute in Hrun].
  destruct (results_provenance cfg_prefer ["example.com"] s 200
              [mkResult "https://example.com" 200 ""]
              (mkResult "https://example.com" 200 ""))
    as (a & line & q & Ha & Hf & _ & _ & Hline & Hexp & _).
  - by exists (schedule_both (client_answering 200 ∅)).
  - vm_compute in Hrun. by injection Hrun as <-.
  - by left.
  - by exists s, a, line, q.
Defined.

Lemma default_probing_attempts_witness :
  exists s,
    run (mkConfig 2 [] false false "GET") (init (mkConfig 2 [] false false "GET") ["a.test"])
      [MainSend 0; HttpsProbe 0 client_timeout; MainSend 0; HttpProbe 0 client_timeout;
       HttpsForward 0 0; HttpProbe 0 client_timeout; MainClose; HttpsDone 0;
       CloseHTTP; HttpDone 0; CloseOutput] = Some s /\
    probed_on httpURLs (attempts s) = {[+ "a.test"; "a.test" +]}.
Proof.
  destruct (run (mkConfig 2 [] false false "GET")
              (init (mkConfig 2 [] false false "GET") ["a.test"])
      [MainSend 0; HttpsProbe 0 client_timeout; MainSend 0; HttpProbe 0 client_timeout;
       HttpsForward 0 0; HttpProbe 0 client_timeout; MainClose; HttpsDone 0;
       CloseHTTP; HttpDone 0; CloseOutput]) as [s|] eqn:Hrun;
    [|by vm_compute in Hrun].
  exists s. split; [done|].
  assert (output_closed s = true) as Hout.
  { pose proof Hrun as Hrun'. vm_compute in Hrun'. by injection Hrun' as <-. }
  destruct (default_probing_attempts (mkConfig 2 [] false false "GET") ["a.test"] s
              eq_refl eq_refl ltac:(simpl; lia) (ex_intro _ _ Hrun) Hout)
    as (_ & _ & H).
  rewrite H by done. by vm_compute.
Defined.

Lemma https_specs_prefer_https_witness :
  exists s,
    run (mkConfig 2 ["https:8443"] false true "GET")
        (init (mkConfig 2 ["https:8443"] false true "GET") ["bar.test"])
        [MainSend 0; HttpsProbe 0 client_timeout; HttpsForward 0 0;
         HttpProbe 0 client_timeout] = Some s /\
    In (mkAttempt httpsURLs "bar.test:8443" 0 None) (attempts s).
Proof.
  destruct (run (mkConfig 2 ["https:8443"] false true "GET")
              (init (mkConfig 2 ["https:8443"] false true "GET") ["bar.test"])
              [MainSend 0; HttpsProbe 0 client_timeout; HttpsForward 0 0;
               HttpProbe 0 client_timeout]) as [s|] eqn:Hrun;
    [|by vm_compute in Hrun].
  exists s. split; [done|].
  apply (https_specs_prefer_https (mkConfig 2 ["https:8443"] false true "GET")
           ["bar.test"] s (mkAttempt httpURLs "bar.test:8443" 0 None)).
  - discriminate.
  - repeat constructor. by exists "https", "8443".
  - done.
  - by eexists.
  - vm_compute in Hrun. injection Hrun as <-. simpl. auto.
  - done.
Defined.

Lemma finished_run_report_witness :
  exists s doc,
    run cfg_prefer (init cfg_prefer ["example.com"])
        (schedule_both (client_answering 200 ∅) ++ schedule_finish) = Some s /\
    main s = Exited (Some doc) /\
    probed_on httpsURLs (attempts s) = {[+ "example.com" +]}.
Proof.
  destruct (run cfg_prefer (init cfg_prefer ["example.com"])
              (schedule_both (client_answering 200 ∅) ++ schedule_finish))
    as [s|] eqn:Hrun; [|by vm_compute in Hrun].
  assert (exists doc, main s = Exited (Some doc)) as [doc Hdoc].
  { vm_compute in Hrun. injection Hrun as <-. by eexists. }
  exists s, doc. split; [done|]. split; [done|].
  destruct (finished_run_report cfg_prefer ["example.com"] s (Some doc))
    as (_ & H & _); [by eexists|done|].
  rewrite H. by vm_compute.
Defined.

Lemma at_most_once_witness :
  exists s,
    run cfg_prefer (init cfg_prefer ["example.com"])
        (schedule_both (client_answering 200 ∅)) = Some s /\
    probed_on httpsURLs (attempts s) ⊆ {[+ "example.com" +]}.
Proof.
  destruct (run cfg_prefer (init cfg_prefer ["example.com"])
              (schedule_both (client_answering 200 ∅))) as [s|] eqn:Hrun;
    [|by vm_compute in Hrun].
  exists s. split; [done|].
  destruct (at_most_once cfg_prefer ["example.com"] s (ex_intro _ _ Hrun))
    as (_ & H & _).
  etrans; [exact H|]. by vm_compute.
Defined.

Lemma finished_report_wellformed_witness :
  exists s doc,
    run cfg_prefer (init cfg_prefer ["example.com"])
        (schedule_both (client_answering 200 ∅) ++ schedule_finish) = Some s /\
    main s = Exited (Some doc) /\ doc !! "0" = None.
Proof.
  destruct (run cfg_prefer (init cfg_prefer ["example.com"])
              (schedule_both (client_answering 200 ∅) ++ schedule_finish))
    as [s|] eqn:Hrun; [|by vm_compute in Hrun].
  assert (exists doc, main s = Exited (Some doc)) as [doc Hdoc].
  { vm_compute in Hrun. injection Hrun as <-. by eexists. }
  exists s, doc. split; [done|]. split; [done|].
  by destruct (finished_report_wellformed cfg_prefer ["example.com"] s doc
                 (ex_intro _ _ Hrun) Hdoc) as (H & _).
Defined.
